(** * The 2048 board engine of [mini-app/components/2048-game.tsx]

    A shallow embedding of the pure board functions of the component
    ([compress], [merge], [transpose], [reverse], the four moves,
    [hasMoves], [addRandomTile]) and of the [handleMove] callback, followed
    by the properties of the engine.

    Conventions of the model.
    - A [number] cell is an integer ([Z]).  The code computes in doubles:
      its doubling of a cell and its sums of scores agree with the integer
      arithmetic of the model as long as the values are safe integers (at
      most [MAX_SAFE_INTEGER]); beyond, the code rounds or reaches
      [Infinity].  The boards of [safe_board] are those where every number
      a move computes is a safe integer, and the statements that depend on
      the value of a doubled cell, of a sum or of a score are stated on
      them.
    - An array is a list.  A read [a[i]] is the lookup [a !! i]: the value
      [None] stands for JavaScript's [undefined] (read past the end).
    - A run ends in one of three ways, see [result]. *)

From Stdlib Require Import ZArith QArith Qround Lia.
From stdpp Require Import base list strings gmap.

Local Open Scope Z_scope.

(** ** Outcomes of a run *)

(** The exceptions the engine can raise.  The source has no [throw]
    statement: the only exception is the [TypeError] raised by the
    language when a property of [undefined] is read or [undefined] is
    destructured. *)
Inductive error : Type :=
| TypeError.

(** The [name] property of the exception object. *)
Definition error_name (e : error) : string :=
  match e with
  | TypeError => "TypeError"
  end.

(** [Ok a]: the function returns [a].
    [Throw e]: the function raises [e].
    [NonInteger]: the function goes on, but stores [undefined] or [NaN] in
    a cell (a read past the end of a row flows into a board): the run
    leaves the integer boards this development describes. *)
Inductive result (A : Type) : Type :=
| Ok (a : A)
| Throw (e : error)
| NonInteger.

Arguments Ok {A} a.
Arguments Throw {A} e.
Arguments NonInteger {A}.

Global Instance result_bind : MBind result := fun A B k m =>
  match m with
  | Ok a => k a
  | Throw e => Throw e
  | NonInteger => NonInteger
  end.

Global Instance result_ret : MRet result := fun A a => Ok a.

(** [xs.map(f)] for a callback that may leave the model: the elements are
    visited from left to right. *)
Fixpoint mapM {A B : Type} (f : A -> result B) (xs : list A) : result (list B) :=
  match xs with
  | [] => Ok []
  | x :: rest =>
      y ← f x;
      ys ← mapM f rest;
      Ok (y :: ys)
  end.

(** [for (let i = ...) body] over the index list [idxs], threading the
    loop-carried variables [s]. *)
Fixpoint forM {S : Type} (body : nat -> S -> result S) (idxs : list nat) (s : S)
  : result S :=
  match idxs with
  | [] => Ok s
  | i :: rest => s' ← body i s; forM body rest s'
  end.

(** ** Data *)

Definition BOARD_SIZE : nat := 4.
Definition TILE_VALUES : list Z := [2; 4].
Definition TILE_PROBABILITIES : list Q := [(9 # 10)%Q; (1 # 10)%Q].

Abbreviation Row := (list Z).
Abbreviation Board := (list (list Z)).

(** The return type [{ newBoard; scoreDelta }] of the moves. *)
Record MoveResult : Type := mkMove { newBoard : Board; scoreDelta : Z }.

(** The return type [{ mergedRow; scoreDelta }] of [merge]. *)
Record MergeResult : Type := mkMerge { mergedRow : Row; rowDelta : Z }.

(** Strict equality [x === y] of two reads: [undefined] equals only
    [undefined]. *)
Definition strict_eq (x y : option Z) : bool :=
  match x, y with
  | Some a, Some b => a =? b
  | None, None => true
  | _, _ => false
  end.

(** [createEmptyBoard]. *)
Definition createEmptyBoard : Board :=
  replicate BOARD_SIZE (replicate BOARD_SIZE 0).

(** ** Line reducer *)

(** The callback [v => v !== 0] of [compress]. *)
Definition nonzero (v : Z) : bool := negb (v =? 0).

(** [compress]: keep the non-zero entries, then push zeros while the row is
    shorter than [BOARD_SIZE]. *)
Definition compress (row : Row) : Row :=
  let newRow := List.filter nonzero row in
  newRow ++ replicate (BOARD_SIZE - length newRow)%nat 0.

(** One iteration of the loop of [merge], at index [i], on the loop state
    [(newRow, scoreDelta)].  When [newRow[i]] is [undefined] so is
    [newRow[i + 1]]: the test succeeds and [newRow[i] *= 2] stores [NaN].
    The product and the sum are those of the integers; the doubles of the
    code give the same as long as the results are safe integers, which
    [safe_board] ensures (lemmas [merge_budget], [resolve_safe]). *)
Definition merge_step (i : nat) (st : Row * Z) : result (Row * Z) :=
  let '(newRow, delta) := st in
  match newRow !! i with
  | Some a =>
      if negb (a =? 0) && strict_eq (Some a) (newRow !! S i) then
        let newRow1 := <[i := a * 2]> newRow in
        let newRow2 := <[S i := 0]> newRow1 in
        Ok (newRow2, delta + a * 2)
      else Ok (newRow, delta)
  | None => NonInteger
  end.

(** [merge]: one pass over the indices [0 .. BOARD_SIZE - 2], then
    [compress]. *)
Definition merge (row : Row) : result MergeResult :=
  '(newRow, delta) ← forM merge_step (seq 0 (BOARD_SIZE - 1)) (row, 0);
  Ok (mkMerge (compress newRow) delta).

(** ** Orientation adapters *)

(** A read [row[i]] whose value is stored in a board. *)
Definition cell (row : Row) (i : nat) : result Z :=
  match row !! i with
  | Some v => Ok v
  | None => NonInteger
  end.

(** [transpose]: [board[0].map((_, i) => board.map(row => row[i]))].
    On the empty board [board[0]] is [undefined] and [.map] raises. *)
Definition transpose (board : Board) : result Board :=
  match board !! 0%nat with
  | None => Throw TypeError
  | Some row0 =>
      mapM (fun i => mapM (fun row => cell row i) board) (seq 0 (length row0))
  end.

(** [reverse]: every row copied and reversed. *)
Definition reverse (board : Board) : Board :=
  List.map (fun row => rev row) board.

(** ** Move resolver *)

(** The callback of [board.map] in [moveLeft], with the captured variable
    [scoreDelta] threaded through the rows.  The sum is that of the
    integers, exact in the code while the score is a safe integer. *)
Fixpoint moveLeft_rows (rows : list Row) (delta : Z) : result (Board * Z) :=
  match rows with
  | [] => Ok ([], delta)
  | row :: rest =>
      let compressed := compress row in
      m ← merge compressed;
      '(moved, delta') ← moveLeft_rows rest (delta + rowDelta m);
      Ok (mergedRow m :: moved, delta')
  end.

Definition moveLeft (board : Board) : result MoveResult :=
  '(moved, delta) ← moveLeft_rows board 0;
  Ok (mkMove moved delta).

Definition moveRight (board : Board) : result MoveResult :=
  let reversed := reverse board in
  m ← moveLeft reversed;
  Ok (mkMove (reverse (newBoard m)) (scoreDelta m)).

Definition moveUp (board : Board) : result MoveResult :=
  transposed ← transpose board;
  m ← moveLeft transposed;
  back ← transpose (newBoard m);
  Ok (mkMove back (scoreDelta m)).

Definition moveDown (board : Board) : result MoveResult :=
  transposed ← transpose board;
  m ← moveRight transposed;
  back ← transpose (newBoard m);
  Ok (mkMove back (scoreDelta m)).

(** The [switch] of [handleMove] followed by the destructuring
    [const { newBoard, scoreDelta } = result]: the cases are compared with
    the direction in order; when none matches, [result] is still
    [undefined] and the destructuring raises a [TypeError]. *)
Definition resolve (direction : string) (board : Board) : result MoveResult :=
  if String.eqb direction "up" then moveUp board
  else if String.eqb direction "down" then moveDown board
  else if String.eqb direction "left" then moveLeft board
  else if String.eqb direction "right" then moveRight board
  else Throw TypeError.

(** ** Terminal detector *)

(** A loop whose body may [return true]: the first iteration that does so
    ends the loop. *)
Fixpoint existsM (body : nat -> result bool) (idxs : list nat) : result bool :=
  match idxs with
  | [] => Ok false
  | i :: rest =>
      found ← body i;
      if (found : bool) then Ok true else existsM body rest
  end.

(** The three tests of [hasMoves] at the cell [(r, c)], in order.
    Indexing the missing row [board[r]] raises. *)
Definition hasMoves_at (board : Board) (r c : nat) : result bool :=
  match board !! r with
  | None => Throw TypeError
  | Some row =>
      if strict_eq (row !! c) (Some 0) then Ok true
      else if (c <? BOARD_SIZE - 1)%nat && strict_eq (row !! c) (row !! S c)
      then Ok true
      else if (r <? BOARD_SIZE - 1)%nat then
        match board !! S r with
        | None => Throw TypeError
        | Some below => Ok (strict_eq (row !! c) (below !! c))
        end
      else Ok false
  end.

Definition hasMoves (board : Board) : result bool :=
  existsM (fun r => existsM (fun c => hasMoves_at board r c) (seq 0 BOARD_SIZE))
    (seq 0 BOARD_SIZE).

(** ** Tile spawner *)

(** The inner [row.forEach] of [addRandomTile], from column [c] on. *)
Fixpoint emptyCells_row (r c : nat) (row : Row) : list (nat * nat) :=
  match row with
  | [] => []
  | v :: rest =>
      (if v =? 0 then [(r, c)] else []) ++ emptyCells_row r (S c) rest
  end.

(** The outer [board.forEach], from row [r] on. *)
Fixpoint emptyCells_from (r : nat) (board : Board) : list (nat * nat) :=
  match board with
  | [] => []
  | row :: rest => emptyCells_row r 0 row ++ emptyCells_from (S r) rest
  end.

Definition emptyCells (board : Board) : list (nat * nat) :=
  emptyCells_from 0 board.

(** A read [a[k]] at an integer index. *)
Definition array_get {A : Type} (a : list A) (k : Z) : option A :=
  if k <? 0 then None else a !! Z.to_nat k.

(** The assignment [row[c] = value]: in range it overwrites, at the end it
    appends, further out it leaves holes. *)
Definition array_set (row : Row) (c : nat) (value : Z) : result Row :=
  if (c <? length row)%nat then Ok (<[c := value]> row)
  else if (c =? length row)%nat then Ok (row ++ [value])
  else NonInteger.

Definition Qlt_bool (x y : Q) : bool := negb (Qle_bool y x).

(** [addRandomTile].  The two calls of [Math.random()] are the arguments
    [u1] and [u2], rational numbers in place of the floating-point draws;
    [Math.random] returns a number in the interval from 0 (included) to 1
    (excluded).  The index is the floor of the exact product, where the
    code floors the rounded product: both are indices of [emptyCells], not
    always the same one, and the properties below are stated for every
    draw and do not say which empty cell is filled. *)
Definition addRandomTile (u1 u2 : Q) (board : Board) : result Board :=
  let cells := emptyCells board in
  if (length cells =? 0)%nat then Ok board
  else
    match array_get cells (Qfloor (u1 * inject_Z (Z.of_nat (length cells)))) with
    | None => Throw TypeError
    | Some (r, c) =>
        let value :=
          if Qlt_bool u2 (nth 0 TILE_PROBABILITIES 0%Q)
          then nth 0 TILE_VALUES 0 else nth 1 TILE_VALUES 0 in
        let copy := List.map (fun row => row) board in
        match copy !! r with
        | None => Throw TypeError
        | Some row =>
            row' ← array_set row c value;
            Ok (<[r := row']> copy)
        end
    end.

(** ** The move handler *)

(** The state of the component. *)
Record GameState : Type :=
  mkState { board : Board; score : Z; gameOver : bool }.

(** [handleMove]: the state after the call and how the call ended.  The
    state setters called before an exception keep their effect.  The new
    score is the sum of the integers, exact in the code while it is a safe
    integer. *)
Definition handleMove (u1 u2 : Q) (st : GameState) (direction : string)
  : GameState * result unit :=
  if gameOver st then (st, Ok tt)
  else
    match resolve direction (board st) with
    | Throw e => (st, Throw e)
    | NonInteger => (st, NonInteger)
    | Ok m =>
        if negb (bool_decide (newBoard m = board st)) then
          match addRandomTile u1 u2 (newBoard m) with
          | Throw e => (st, Throw e)
          | NonInteger => (st, NonInteger)
          | Ok updatedBoard =>
              let st1 := mkState updatedBoard (score st + scoreDelta m) false in
              match hasMoves updatedBoard with
              | Throw e => (st1, Throw e)
              | NonInteger => (st1, NonInteger)
              | Ok true => (st1, Ok tt)
              | Ok false => (mkState updatedBoard (score st + scoreDelta m) true, Ok tt)
              end
          end
        else (st, Ok tt)
    end.

(** ** Vocabulary of the properties *)

(** The four values of the parameter type of [handleMove]. *)
Definition Directions : list string := ["up"; "down"; "left"; "right"].

(** A board in the domain of the engine: [BOARD_SIZE] rows of
    [BOARD_SIZE] cells. *)
Definition is_board (b : Board) : Prop :=
  length b = BOARD_SIZE ∧ Forall (fun row : Row => length row = BOARD_SIZE) b.

(** The cell [(r, c)] of a board, when there is one. *)
Definition tile (b : Board) (r c : nat) : option Z :=
  match b !! r with
  | Some row => row !! c
  | None => None
  end.

Definition row_sum (row : Row) : Z := foldr Z.add 0 row.

(** The sum of all tile values of a board. *)
Definition board_sum (b : Board) : Z := foldr (fun row acc => row_sum row + acc) 0 b.

(** No zero entry to the left of a non-zero entry. *)
Definition packed (row : Row) : Prop :=
  ∀ i j v, (i < j)%nat → row !! i = Some 0 → row !! j = Some v → v = 0.

(** The link between the rows of a board and the rows of its left
    move. *)
Definition reduced (rows moved : Board) : Prop :=
  Forall2 (fun (row out : Row) =>
             (∃ x, out = compress x ∧ length x = length (compress row))
             ∧ row_sum out = row_sum row) rows moved.

(** Packing of a board against each of its four edges, cell by cell. *)
Definition packed_left (b : Board) : Prop :=
  ∀ r c1 c2 v, (c1 < c2)%nat → tile b r c1 = Some 0 → tile b r c2 = Some v → v = 0.
Definition packed_right (b : Board) : Prop :=
  ∀ r c1 c2 v, (c1 < c2)%nat → tile b r c2 = Some 0 → tile b r c1 = Some v → v = 0.
Definition packed_up (b : Board) : Prop :=
  ∀ r1 r2 c v, (r1 < r2)%nat → tile b r1 c = Some 0 → tile b r2 c = Some v → v = 0.
Definition packed_down (b : Board) : Prop :=
  ∀ r1 r2 c v, (r1 < r2)%nat → tile b r2 c = Some 0 → tile b r1 c = Some v → v = 0.

(** What every move does on a board [x] of the game: it returns a board
    of the game with the sum of [x], which moreover satisfies [P]. *)
Definition moves_to (x : Board) (P : Board → Prop) (r : result MoveResult) : Prop :=
  ∃ m, r = Ok m ∧ is_board (newBoard m)
       ∧ board_sum (newBoard m) = board_sum x ∧ P (newBoard m).

(** The detector as the specification words it: some cell is empty, or
    equals its right neighbour, or equals the cell below it. *)
Definition has_move_at (b : Board) (r c : nat) : bool :=
  match tile b r c with
  | Some v =>
      (v =? 0) || strict_eq (Some v) (tile b r (S c))
      || strict_eq (Some v) (tile b (S r) c)
  | None => false
  end.

Definition spec_hasMoves (b : Board) : bool :=
  existsb (fun r => existsb (fun c => has_move_at b r c) (seq 0 BOARD_SIZE))
    (seq 0 BOARD_SIZE).

(** A run fails with the exception called [name]. *)
Definition fails_with {A : Type} (name : string) (r : result A) : Prop :=
  ∃ e, r = Throw e ∧ error_name e = name.

(** The move returns, and the sum of the tiles grows by the score of the
    move. *)
Definition mass_grows_by_delta (d : string) (b : Board) : Prop :=
  ∃ m, resolve d b = Ok m ∧ board_sum (newBoard m) = board_sum b + scoreDelta m.

Definition two_twos : Board :=
  [[2; 2; 0; 0]; [0; 0; 0; 0]; [0; 0; 0; 0]; [0; 0; 0; 0]].

Definition small_board : Board := [[2; 2]; [0; 0]].

Definition checkered : Board :=
  [[2; 4; 2; 4]; [4; 2; 4; 2]; [2; 4; 2; 4]; [4; 2; 4; 2]].

(** The move returns a board with the rows of [b], each of [BOARD_SIZE]
    cells or more, and with the sum of [b]. *)
Definition defined_move (b : Board) (r : result MoveResult) : Prop :=
  ∃ m, r = Ok m ∧ length (newBoard m) = length b
       ∧ Forall (fun row : Row => (BOARD_SIZE ≤ length row)%nat) (newBoard m)
       ∧ board_sum (newBoard m) = board_sum b.

(** ** The rest of the component *)

(** The state of the three [useState] hooks at mount. *)
Definition initialState : GameState := mkState createEmptyBoard 0 false.

(** The effect run at mount: [addRandomTile] twice on the board of the
    state, then [setBoard].  The four draws of [Math.random] are the
    arguments. *)
Definition seedBoard (u1 u2 u3 u4 : Q) (st : GameState) : GameState * result unit :=
  match addRandomTile u1 u2 (board st) with
  | Throw e => (st, Throw e)
  | NonInteger => (st, NonInteger)
  | Ok newBoard1 =>
      match addRandomTile u3 u4 newBoard1 with
      | Throw e => (st, Throw e)
      | NonInteger => (st, NonInteger)
      | Ok newBoard2 => (mkState newBoard2 (score st) (gameOver st), Ok tt)
      end
  end.

(** The constants of [tileClass]: the string [base] and the object
    [colors], a map from tile values to class names, written as the list
    of its properties. *)
Definition base : string :=
  "flex items-center justify-center rounded-md text-2xl font-bold".

Definition color_table : list (Z * string) :=
  [(0, "bg-muted"); (2, "bg-blue-200"); (4, "bg-blue-300"); (8, "bg-blue-400");
   (16, "bg-blue-500"); (32, "bg-blue-600"); (64, "bg-blue-700");
   (128, "bg-blue-800"); (256, "bg-blue-900"); (512, "bg-indigo-200");
   (1024, "bg-indigo-300"); (2048, "bg-indigo-400")].

Definition colors : gmap Z string := list_to_map color_table.

(** [tileClass]: the template string, with [colors[value] ?? "bg-indigo-500"]
    in the middle. *)
Definition tileClass (value : Z) : string :=
  base +:+ " " +:+ default "bg-indigo-500" (colors !! value) +:+ " text-white".

(** ** Vocabulary of the further properties *)

(** The weight of a cell in the count of tiles. *)
Definition occupied (v : Z) : nat := if nonzero v then 1%nat else 0%nat.

(** The number of non-zero cells of a row and of a board. *)
Definition row_count (row : Row) : nat := length (List.filter nonzero row).

Definition board_count (b : Board) : nat :=
  foldr (fun row n => (row_count row + n)%nat) 0%nat b.

(** A tile value of the game: 0 (empty) or a power of two from 2 on. *)
Definition is_tile (v : Z) : bool :=
  (v =? 0) || ((1 <? v) && (v =? 2 ^ Z.log2 v)).

(** Every cell of the board satisfies [P]. *)
Definition all_cells (P : Z → Prop) (b : Board) : Prop :=
  Forall (fun row : Row => Forall P row) b.

(** The largest integer up to which every integer is a double:
    [Number.MAX_SAFE_INTEGER]. *)
Definition MAX_SAFE_INTEGER : Z := 2 ^ 53 - 1.

(** The boards on which the arithmetic of the moves is exact in the
    doubles of the code as it is in the integers of the model: no cell is
    negative and the sum of the cells is a safe integer.  On such a board
    every number a move computes (a doubled cell, a partial sum of the
    score) lies between 0 and the sum of the cells. *)
Definition safe_board (b : Board) : Prop :=
  all_cells (fun v => 0 ≤ v) b ∧ board_sum b ≤ MAX_SAFE_INTEGER.

(** The rule of the game for one line, on the list of its tiles (the
    non-zero entries, in order): two equal neighbours become one tile of
    double value, which adds that value to the score, and the scan goes on
    behind the pair, so a merged tile is not merged again. *)
Fixpoint pair_up (tiles : list Z) : list Z * Z :=
  match tiles with
  | [] => ([], 0)
  | a :: rest =>
      match rest with
      | [] => ([a], 0)
      | b :: rest' =>
          if a =? b then
            let '(out, s) := pair_up rest' in (a * 2 :: out, a * 2 + s)
          else
            let '(out, s) := pair_up rest in (a :: out, s)
      end
  end.

(** The states the component goes through: a board of the game holding
    tile values, and a score that is not negative. *)
Definition valid_state (st : GameState) : Prop :=
  is_board (board st) ∧ all_cells (fun v => is_tile v = true) (board st)
  ∧ 0 ≤ score st.

(** The calls of [handleMove] made by a sequence of clicks, each with its
    two draws and its direction; the state of one call is the state the
    next call sees. *)
Fixpoint play (clicks : list (Q * Q * string)) (st : GameState) : GameState :=
  match clicks with
  | [] => st
  | (u1, u2, d) :: rest => play rest (handleMove u1 u2 st d).1
  end.

(** A click of one of the four buttons, with a first draw in the range of
    [Math.random]. *)
Definition fair_click (click : Q * Q * string) : Prop :=
  (0 <= click.1.1)%Q ∧ (click.1.1 < 1)%Q ∧ click.2 ∈ Directions.

(** A running state holding [two_twos]. *)
Definition playing : GameState := mkState two_twos 0 false.

(** ** Runs of the model on examples *)

Example merge_pair : merge [2; 2; 0; 0] = Ok (mkMerge [4; 0; 0; 0] 4).
Proof. reflexivity. Qed.

Example merge_short : merge [2; 2] = NonInteger.
Proof. reflexivity. Qed.

Example end_to_end :
  resolve "left" [[2; 2; 0; 0]; [0; 0; 0; 0]; [0; 0; 0; 0]; [0; 0; 0; 0]]
  = Ok (mkMove [[4; 0; 0; 0]; [0; 0; 0; 0]; [0; 0; 0; 0]; [0; 0; 0; 0]] 4).
Proof. reflexivity. Qed.

Example down_example :
  resolve "down" [[2; 0; 0; 0]; [2; 0; 0; 4]; [4; 0; 0; 4]; [4; 0; 8; 0]]
  = Ok (mkMove [[0; 0; 0; 0]; [0; 0; 0; 0]; [4; 0; 0; 0]; [8; 0; 8; 8]] 20).
Proof. reflexivity. Qed.

Example spawn_example :
  addRandomTile (1 # 2) (95 # 100) [[2; 0]; [0; 4]] = Ok [[2; 0]; [4; 4]].
Proof. reflexivity. Qed.

(** ** The line reducer: [compress] *)

Section Compress.

Lemma row_sum_app (xs ys : Row) : row_sum (xs ++ ys) = row_sum xs + row_sum ys.
Proof. induction xs as [|x xs IH]; simpl; [reflexivity | rewrite IH; lia]. Qed.

Lemma row_sum_zeros (n : nat) : row_sum (replicate n 0) = 0.
Proof. induction n as [|n IH]; simpl; [reflexivity | exact IH]. Qed.

Lemma row_sum_nonzero (row : Row) :
  row_sum (List.filter nonzero row) = row_sum row.
Proof.
  induction row as [|v row IH]; simpl; [reflexivity|].
  unfold nonzero at 1.
  destruct (Z.eqb_spec v 0) as [-> | Hv]; simpl; rewrite IH; reflexivity.
Qed.

Lemma row_sum_compress (row : Row) : row_sum (compress row) = row_sum row.
Proof.
  unfold compress. rewrite row_sum_app, row_sum_zeros, row_sum_nonzero. lia.
Qed.

Lemma row_sum_rev (row : Row) : row_sum (rev row) = row_sum row.
Proof.
  induction row as [|v row IH]; simpl; [reflexivity|].
  rewrite row_sum_app, IH. simpl. lia.
Qed.

Lemma filter_nonzero_length (row : Row) :
  (length (List.filter nonzero row) ≤ length row)%nat.
Proof.
  induction row as [|v row IH]; simpl; [lia|].
  destruct (nonzero v); simpl; lia.
Qed.

(** The [while] loop of [compress] stops at [BOARD_SIZE] cells or more. *)
Lemma compress_length_ge (row : Row) : (BOARD_SIZE ≤ length (compress row))%nat.
Proof. unfold compress. rewrite length_app, length_replicate. lia. Qed.

Lemma compress_length (row : Row) :
  length row = BOARD_SIZE → length (compress row) = BOARD_SIZE.
Proof.
  intros Hlen. unfold compress. rewrite length_app, length_replicate.
  pose proof (filter_nonzero_length row). lia.
Qed.

Lemma filter_nonzero_zeros (n : nat) :
  List.filter nonzero (replicate n 0) = [].
Proof. induction n as [|n IH]; simpl; [reflexivity | exact IH]. Qed.

Lemma filter_nonzero_idem (row : Row) :
  List.filter nonzero (List.filter nonzero row)
  = List.filter nonzero row.
Proof.
  induction row as [|v row IH]; simpl; [reflexivity|].
  destruct (nonzero v) eqn:Hv; simpl; rewrite ?Hv, IH; reflexivity.
Qed.

(** [compress] is idempotent: its results are its fixed points. *)
Lemma compress_idem (row : Row) : compress (compress row) = compress row.
Proof.
  unfold compress at 2. unfold compress.
  rewrite List.filter_app, filter_nonzero_zeros, app_nil_r, filter_nonzero_idem.
  reflexivity.
Qed.

Lemma filter_nonzero_lookup (row : Row) (i : nat) :
  List.filter nonzero row !! i ≠ Some 0.
Proof.
  revert i. induction row as [|v row IH]; intros i; simpl; [by destruct i|].
  unfold nonzero at 1.
  destruct (Z.eqb_spec v 0) as [-> | Hv]; simpl; [apply IH|].
  destruct i as [|i]; simpl; [congruence | apply IH].
Qed.

(** A compressed row is packed. *)
Lemma compress_packed (row : Row) : packed (compress row).
Proof.
  intros i j v Hij Hi Hj. unfold compress in *.
  set (f := List.filter nonzero row) in *.
  destruct (decide (i < length f)%nat) as [Hlt | Hge].
  - rewrite lookup_app_l in Hi by exact Hlt.
    exfalso. exact (filter_nonzero_lookup row i Hi).
  - rewrite lookup_app_r in Hj by lia.
    apply lookup_replicate in Hj. tauto.
Qed.

End Compress.

(** ** The line reducer: [merge] *)

Section Merge.

Lemma row_sum_insert (row : Row) (i : nat) (x y : Z) :
  row !! i = Some y → row_sum (<[i := x]> row) = row_sum row - y + x.
Proof.
  revert i. induction row as [|v row IH]; intros i Hi; [by destruct i|].
  destruct i as [|i]; simpl in *.
  - injection Hi as ->. lia.
  - rewrite (IH i Hi). lia.
Qed.

Lemma strict_eq_Some (a : Z) (y : option Z) :
  strict_eq (Some a) y = true ↔ y = Some a.
Proof.
  destruct y as [b|]; simpl; [|split; discriminate].
  rewrite Z.eqb_eq. split; [intros -> | intros [= ->]]; reflexivity.
Qed.

(** What one iteration of the loop keeps: inside the row it neither
    raises nor leaves the integers, and the row keeps its length and its
    sum. *)
Lemma merge_step_ok (i : nat) (row : Row) (d : Z) :
  (i < length row)%nat →
  ∃ row' d', merge_step i (row, d) = Ok (row', d')
             ∧ length row' = length row ∧ row_sum row' = row_sum row.
Proof.
  intros Hi. destruct (lookup_lt_is_Some_2 row i Hi) as [a Ha].
  unfold merge_step. rewrite Ha.
  destruct (negb (a =? 0) && strict_eq (Some a) (row !! S i)) eqn:Htest.
  - apply andb_prop in Htest as [_ Hnext]. apply strict_eq_Some in Hnext.
    eexists _, _. split; [reflexivity|]. split.
    + rewrite !length_insert. reflexivity.
    + rewrite (row_sum_insert _ (S i) 0 a).
      * rewrite (row_sum_insert _ i (a * 2) a Ha). lia.
      * rewrite list_lookup_insert_ne by lia. exact Hnext.
  - eexists _, _. split; [reflexivity|]. split; reflexivity.
Qed.

Lemma forM_merge_step_ok (idxs : list nat) (row : Row) (d : Z) :
  Forall (fun i => (i < length row)%nat) idxs →
  ∃ row' d', forM merge_step idxs (row, d) = Ok (row', d')
             ∧ length row' = length row ∧ row_sum row' = row_sum row.
Proof.
  revert row d. induction idxs as [|i idxs IH]; intros row d Hall.
  - eexists _, _. split; [reflexivity|]. split; reflexivity.
  - apply Forall_cons in Hall as [Hi Hrest].
    destruct (merge_step_ok i row d Hi) as (row1 & d1 & Hstep & Hlen1 & Hsum1).
    destruct (IH row1 d1) as (row' & d' & Hloop & Hlen & Hsum).
    { rewrite Hlen1. exact Hrest. }
    exists row', d'. cbn [forM]. rewrite Hstep. cbn [mbind result_bind].
    split; [exact Hloop|]. split; congruence.
Qed.

(** [merge] returns on every row of three cells or more; the merged row
    is a compressed row with the sum of the argument. *)
Lemma merge_ok (row : Row) :
  (BOARD_SIZE - 1 ≤ length row)%nat →
  ∃ m, merge row = Ok m
       ∧ (∃ x, mergedRow m = compress x ∧ length x = length row)
       ∧ row_sum (mergedRow m) = row_sum row.
Proof.
  intros Hlen.
  destruct (forM_merge_step_ok (seq 0 (BOARD_SIZE - 1)) row 0)
    as (row' & d' & Hloop & Hlen' & Hsum').
  { apply Forall_forall. intros i Hi. apply elem_of_seq in Hi. lia. }
  exists (mkMerge (compress row') d'). unfold merge. rewrite Hloop. simpl.
  split; [reflexivity|]. split; [exists row'; split; [reflexivity | exact Hlen']|].
  rewrite row_sum_compress. exact Hsum'.
Qed.

(** The reducer of one row, [merge (compress row)], as [moveLeft] calls
    it. *)
Lemma reduce_ok (row : Row) :
  ∃ m, merge (compress row) = Ok m
       ∧ (∃ x, mergedRow m = compress x ∧ length x = length (compress row))
       ∧ row_sum (mergedRow m) = row_sum row.
Proof.
  destruct (merge_ok (compress row)) as (m & Hm & Hx & Hsum).
  { pose proof (compress_length_ge row). unfold BOARD_SIZE in *. lia. }
  exists m. rewrite Hsum, row_sum_compress. auto.
Qed.

End Merge.

(** ** The left move, on boards of any shape *)

Section MoveLeft.

Lemma moveLeft_rows_ok (rows : Board) (d : Z) :
  ∃ moved d', moveLeft_rows rows d = Ok (moved, d') ∧ reduced rows moved.
Proof.
  revert d. induction rows as [|row rows IH]; intros d.
  - exists [], d. split; [reflexivity | constructor].
  - destruct (reduce_ok row) as (m & Hm & Hx & Hsum).
    destruct (IH (d + rowDelta m)) as (moved & d' & Hrest & Hred).
    exists (mergedRow m :: moved), d'. cbn [moveLeft_rows]. rewrite Hm.
    cbn [mbind result_bind]. rewrite Hrest. split; [reflexivity|].
    constructor; [split; assumption | exact Hred].
Qed.

(** [moveLeft] returns on every board. *)
Lemma moveLeft_ok (b : Board) :
  ∃ m, moveLeft b = Ok m ∧ reduced b (newBoard m).
Proof.
  destruct (moveLeft_rows_ok b 0) as (moved & d' & Hrows & Hred).
  exists (mkMove moved d'). unfold moveLeft. rewrite Hrows. simpl. auto.
Qed.

Lemma reduced_length (rows moved : Board) :
  reduced rows moved → length moved = length rows.
Proof. intros H. symmetry. exact (Forall2_length _ _ _ H). Qed.

Lemma reduced_sum (rows moved : Board) :
  reduced rows moved → board_sum moved = board_sum rows.
Proof.
  induction 1 as [|row out rows moved [_ Hsum] _ IH]; simpl; [reflexivity|].
  rewrite Hsum, IH. reflexivity.
Qed.

Lemma reduced_compressed (rows moved : Board) :
  reduced rows moved →
  Forall (fun out : Row => compress out = out ∧ packed out
                           ∧ (BOARD_SIZE ≤ length out)%nat) moved.
Proof.
  induction 1 as [|row out rows moved [(x & -> & _) _] _ IH]; constructor.
  - split; [apply compress_idem|]. split; [apply compress_packed|].
    apply compress_length_ge.
  - exact IH.
Qed.

Lemma reduced_is_board (rows moved : Board) :
  is_board rows → reduced rows moved → is_board moved.
Proof.
  intros [Hlen Hrows] Hred. split.
  - rewrite (reduced_length _ _ Hred). exact Hlen.
  - clear Hlen. induction Hred as [|row out rows moved [(x & -> & Hx) _] _ IH].
    + constructor.
    + apply Forall_cons in Hrows as [Hrow Hrows]. constructor; [|auto].
      apply compress_length. rewrite Hx. apply compress_length. exact Hrow.
Qed.

End MoveLeft.

(** ** Boards of the game: four rows of four cells *)

Section Shape.

Lemma row4_inv (row : Row) :
  length row = BOARD_SIZE → ∃ a b c d, row = [a; b; c; d].
Proof.
  destruct row as [|a [|b [|c [|d [|e row]]]]]; try discriminate.
  intros _. by exists a, b, c, d.
Qed.

Lemma is_board_inv (b : Board) :
  is_board b →
  ∃ r0 r1 r2 r3, b = [r0; r1; r2; r3]
    ∧ length r0 = BOARD_SIZE ∧ length r1 = BOARD_SIZE
    ∧ length r2 = BOARD_SIZE ∧ length r3 = BOARD_SIZE.
Proof.
  intros [Hlen Hrows].
  destruct b as [|r0 [|r1 [|r2 [|r3 [|r4 b]]]]]; try discriminate.
  exists r0, r1, r2, r3.
  repeat (apply Forall_cons in Hrows as [? Hrows]). auto.
Qed.

Lemma is_board_intro (r0 r1 r2 r3 : Row) :
  length r0 = BOARD_SIZE → length r1 = BOARD_SIZE →
  length r2 = BOARD_SIZE → length r3 = BOARD_SIZE →
  is_board [r0; r1; r2; r3].
Proof. intros. split; [reflexivity | repeat constructor; assumption]. Qed.

End Shape.

(** Names the sixteen cells of a board of the game. *)
Ltac name_cells Hb :=
  apply is_board_inv in Hb as (?r & ?r & ?r & ?r & -> & Hb);
  destruct Hb as (?H & ?H & ?H & ?H);
  repeat match goal with
         | H : length ?row = BOARD_SIZE |- _ =>
             apply row4_inv in H as (?x & ?x & ?x & ?x & ->)
         end.

Section FourByFour.

(** On a board of the game [transpose] returns the board whose cell
    [(r, c)] is the cell [(c, r)] of the argument, and transposing again
    gives the argument back. *)
Lemma transpose_board (b : Board) :
  is_board b →
  ∃ t, transpose b = Ok t ∧ is_board t ∧ transpose t = Ok b
       ∧ board_sum t = board_sum b ∧ ∀ r c, tile t r c = tile b c r.
Proof.
  intros Hb. name_cells Hb.
  eexists. split; [reflexivity|].
  split; [by apply is_board_intro|]. split; [reflexivity|].
  split; [unfold board_sum, row_sum; simpl; lia|].
  intros i j.
  destruct i as [|[|[|[|i]]]]; destruct j as [|[|[|[|j]]]]; reflexivity.
Qed.

Lemma reverse_involutive (b : Board) : reverse (reverse b) = b.
Proof.
  unfold reverse. induction b as [|row b IH]; simpl; [reflexivity|].
  rewrite rev_involutive, IH. reflexivity.
Qed.

Lemma reverse_sum (b : Board) : board_sum (reverse b) = board_sum b.
Proof.
  induction b as [|row b IH]; simpl; [reflexivity|].
  rewrite row_sum_rev, IH. reflexivity.
Qed.

Lemma reverse_length (b : Board) : length (reverse b) = length b.
Proof. unfold reverse. apply length_map. Qed.

Lemma reverse_is_board (b : Board) : is_board b → is_board (reverse b).
Proof.
  intros [Hlen Hrows]. split; [by rewrite reverse_length|].
  unfold reverse. clear Hlen.
  induction Hrows as [|row b Hrow _ IH]; simpl; constructor; [|exact IH].
  rewrite length_rev. exact Hrow.
Qed.

(** [moveRight] returns on every board. *)
Lemma moveRight_ok (b : Board) :
  ∃ m, moveRight b = Ok m ∧ reduced (reverse b) (reverse (newBoard m)).
Proof.
  destruct (moveLeft_ok (reverse b)) as (m & Hm & Hred).
  exists (mkMove (reverse (newBoard m)) (scoreDelta m)).
  unfold moveRight. rewrite Hm. cbn [mbind result_bind newBoard].
  rewrite reverse_involutive. auto.
Qed.

Lemma rows_packed_left (b : Board) : Forall packed b → packed_left b.
Proof.
  intros Hrows r c1 c2 v Hlt H1 H2. unfold tile in *.
  destruct (b !! r) as [row|] eqn:Hrow; [|discriminate].
  exact (proj1 (Forall_lookup _ _) Hrows r row Hrow c1 c2 v Hlt H1 H2).
Qed.

Lemma rev_lookup_Some (row : Row) (i : nat) (v : Z) :
  rev row !! i = Some v ↔ row !! (length row - S i)%nat = Some v ∧ (i < length row)%nat.
Proof. rewrite rev_alt. apply reverse_lookup_Some. Qed.

Lemma rows_packed_right (b : Board) : Forall packed b → packed_right (reverse b).
Proof.
  intros Hrows r c1 c2 v Hlt H2 H1. unfold tile, reverse in *.
  rewrite list_lookup_fmap in H1, H2.
  destruct (b !! r) as [row|] eqn:Hrow; [|discriminate]. simpl in *.
  apply rev_lookup_Some in H1 as [H1 Hc1]. apply rev_lookup_Some in H2 as [H2 Hc2].
  refine (proj1 (Forall_lookup _ _) Hrows r row Hrow _ _ v _ H2 H1). lia.
Qed.

Lemma packed_left_transpose (b t : Board) :
  (∀ r c, tile t r c = tile b c r) → packed_left b → packed_up t.
Proof.
  intros Hswap Hb r1 r2 c v Hlt H1 H2. rewrite Hswap in H1, H2.
  exact (Hb c r1 r2 v Hlt H1 H2).
Qed.

Lemma packed_right_transpose (b t : Board) :
  (∀ r c, tile t r c = tile b c r) → packed_right b → packed_down t.
Proof.
  intros Hswap Hb r1 r2 c v Hlt H2 H1. rewrite Hswap in H1, H2.
  exact (Hb c r1 r2 v Hlt H2 H1).
Qed.

Lemma moveLeft_board (x : Board) :
  is_board x →
  moves_to x (fun nb => Forall (fun row => packed row ∧ compress row = row) nb
                        ∧ packed_left nb) (moveLeft x).
Proof.
  intros Hx. destruct (moveLeft_ok x) as (m & Hm & Hred).
  exists m. split; [exact Hm|].
  split; [exact (reduced_is_board _ _ Hx Hred)|].
  split; [exact (reduced_sum _ _ Hred)|].
  pose proof (reduced_compressed _ _ Hred) as Hrows. split.
  - eapply Forall_impl; [exact Hrows|]. simpl. tauto.
  - apply rows_packed_left. eapply Forall_impl; [exact Hrows|]. simpl. tauto.
Qed.

Lemma moveRight_board (x : Board) :
  is_board x → moves_to x packed_right (moveRight x).
Proof.
  intros Hx.
  destruct (moveLeft_board (reverse x) (reverse_is_board _ Hx))
    as (m & Hm & Hbm & Hsum & Hrows & _).
  exists (mkMove (reverse (newBoard m)) (scoreDelta m)).
  unfold moveRight. rewrite Hm. cbn [mbind result_bind newBoard].
  split; [reflexivity|]. split; [by apply reverse_is_board|].
  split; [rewrite reverse_sum, Hsum, reverse_sum; reflexivity|].
  apply rows_packed_right. eapply Forall_impl; [exact Hrows|]. simpl. tauto.
Qed.

Lemma moveUp_board (x : Board) :
  is_board x → moves_to x packed_up (moveUp x).
Proof.
  intros Hx. destruct (transpose_board x Hx) as (t & Ht & Hbt & _ & Hsumt & _).
  destruct (moveLeft_board t Hbt) as (m & Hm & Hbm & Hsum & _ & Hpacked).
  destruct (transpose_board _ Hbm) as (t' & Ht' & Hbt' & _ & Hsumt' & Hswap).
  exists (mkMove t' (scoreDelta m)). unfold moveUp.
  rewrite Ht. cbn [mbind result_bind]. rewrite Hm. cbn [mbind result_bind].
  rewrite Ht'. cbn [mbind result_bind newBoard].
  split; [reflexivity|]. split; [exact Hbt'|]. split; [congruence|].
  exact (packed_left_transpose _ _ Hswap Hpacked).
Qed.

Lemma moveDown_board (x : Board) :
  is_board x → moves_to x packed_down (moveDown x).
Proof.
  intros Hx. destruct (transpose_board x Hx) as (t & Ht & Hbt & _ & Hsumt & _).
  destruct (moveRight_board t Hbt) as (m & Hm & Hbm & Hsum & Hpacked).
  destruct (transpose_board _ Hbm) as (t' & Ht' & Hbt' & _ & Hsumt' & Hswap).
  exists (mkMove t' (scoreDelta m)). unfold moveDown.
  rewrite Ht. cbn [mbind result_bind]. rewrite Hm. cbn [mbind result_bind].
  rewrite Ht'. cbn [mbind result_bind newBoard].
  split; [reflexivity|]. split; [exact Hbt'|]. split; [congruence|].
  exact (packed_right_transpose _ _ Hswap Hpacked).
Qed.

(** The four cases of the [switch]. *)
Lemma resolve_up (b : Board) : resolve "up" b = moveUp b.
Proof. reflexivity. Qed.
Lemma resolve_down (b : Board) : resolve "down" b = moveDown b.
Proof. reflexivity. Qed.
Lemma resolve_left (b : Board) : resolve "left" b = moveLeft b.
Proof. reflexivity. Qed.
Lemma resolve_right (b : Board) : resolve "right" b = moveRight b.
Proof. reflexivity. Qed.

Lemma Directions_inv (d : string) :
  d ∈ Directions → d = "up" ∨ d = "down" ∨ d = "left" ∨ d = "right".
Proof.
  unfold Directions. rewrite !elem_of_cons, elem_of_nil. tauto.
Qed.

End FourByFour.

(** ** The terminal detector *)

Section Terminal.

(** On a board of the game the scan of the code never indexes a missing
    row, and it computes the specification's test. *)
Lemma hasMoves_refines (b : Board) : is_board b → hasMoves b = Ok (spec_hasMoves b).
Proof.
  intros Hb. name_cells Hb. cbv -[Z.eqb].
  repeat match goal with
         | |- context [if ?t then _ else _] => destruct t; [reflexivity|]
         end.
  reflexivity.
Qed.

Lemma tile_bounds (b : Board) (r c : nat) (v : Z) :
  is_board b → tile b r c = Some v → (r < BOARD_SIZE)%nat ∧ (c < BOARD_SIZE)%nat.
Proof.
  intros [Hlen Hrows] Hv. unfold tile in Hv.
  destruct (b !! r) as [row|] eqn:Hrow; [|discriminate].
  rewrite <- Hlen at 1. split; [exact (lookup_lt_Some _ _ _ Hrow)|].
  rewrite <- (proj1 (Forall_lookup _ _) Hrows r row Hrow).
  exact (lookup_lt_Some _ _ _ Hv).
Qed.

Lemma has_move_at_true (b : Board) (r c : nat) :
  has_move_at b r c = true ↔
  ∃ v, tile b r c = Some v
       ∧ (v = 0 ∨ tile b r (S c) = Some v ∨ tile b (S r) c = Some v).
Proof.
  unfold has_move_at. destruct (tile b r c) as [v|]; split.
  - intros H. exists v. split; [reflexivity|].
    apply orb_prop in H as [H | H]; [apply orb_prop in H as [H | H]|].
    + left. by apply Z.eqb_eq.
    + right. left. by apply strict_eq_Some.
    + right. right. by apply strict_eq_Some.
  - intros (w & [= <-] & [-> | [H | H]]).
    + reflexivity.
    + apply strict_eq_Some in H. rewrite H. by rewrite orb_true_r.
    + apply strict_eq_Some in H. rewrite H. apply orb_true_r.
  - discriminate.
  - intros (w & Hw & _). discriminate.
Qed.

Lemma spec_hasMoves_true (b : Board) :
  is_board b →
  (spec_hasMoves b = true ↔
   ∃ r c v, tile b r c = Some v
            ∧ (v = 0 ∨ tile b r (S c) = Some v ∨ tile b (S r) c = Some v)).
Proof.
  intros Hb. unfold spec_hasMoves. rewrite existsb_exists. split.
  - intros (r & _ & Hr). apply existsb_exists in Hr as (c & _ & Hc).
    apply has_move_at_true in Hc as (v & Hv). by exists r, c, v.
  - intros (r & c & v & Hv & Hcase).
    destruct (tile_bounds b r c v Hb Hv) as [Hr Hc].
    exists r. split; [apply in_seq; lia|]. apply existsb_exists.
    exists c. split; [apply in_seq; lia|].
    apply has_move_at_true. by exists v.
Qed.

Lemma spec_hasMoves_false (b : Board) :
  is_board b → spec_hasMoves b = false →
  ∀ r c v, tile b r c = Some v →
    v ≠ 0 ∧ tile b r (S c) ≠ Some v ∧ tile b (S r) c ≠ Some v.
Proof.
  intros Hb Hspec r c v Hv.
  assert (Hnone : ¬ (v = 0 ∨ tile b r (S c) = Some v ∨ tile b (S r) c = Some v)).
  { intros Hcase. apply not_true_iff_false in Hspec. apply Hspec.
    apply (spec_hasMoves_true b Hb). by exists r, c, v. }
  tauto.
Qed.

End Terminal.

(** ** Rows and boards a move leaves alone *)

Section Fixed.

Lemma merge_step_skip (i : nat) (row : Row) (d a b : Z) :
  row !! i = Some a → row !! S i = Some b → a ≠ b →
  merge_step i (row, d) = Ok (row, d).
Proof.
  intros Ha Hb Hab. unfold merge_step. rewrite Ha, Hb. simpl.
  apply Z.eqb_neq in Hab. rewrite Hab, andb_false_r. reflexivity.
Qed.

Lemma compress_full (row : Row) :
  Forall (fun v => v ≠ 0) row → (BOARD_SIZE ≤ length row)%nat → compress row = row.
Proof.
  intros Hall. unfold compress.
  assert (Hf : List.filter nonzero row = row).
  { induction Hall as [|v row Hv _ IH]; simpl; [reflexivity|].
    unfold nonzero at 1. apply Z.eqb_neq in Hv. rewrite Hv. simpl. by rewrite IH. }
  intros Hlen. rewrite Hf.
  replace (BOARD_SIZE - length row)%nat with 0%nat by lia. apply app_nil_r.
Qed.

(** A full row without equal neighbours is reduced to itself, with no
    score. *)
Lemma reduce_fixed (a b c d : Z) :
  a ≠ 0 → b ≠ 0 → c ≠ 0 → d ≠ 0 → a ≠ b → b ≠ c → c ≠ d →
  merge (compress [a; b; c; d]) = Ok (mkMerge [a; b; c; d] 0).
Proof.
  intros Ha Hb Hc Hd Hab Hbc Hcd.
  assert (Hfix : compress [a; b; c; d] = [a; b; c; d]).
  { apply compress_full; [repeat constructor; assumption | reflexivity]. }
  rewrite Hfix. unfold merge. cbn [forM seq BOARD_SIZE Nat.sub].
  rewrite (merge_step_skip 0 _ _ a b) by done. cbn [mbind result_bind].
  rewrite (merge_step_skip 1 _ _ b c) by done. cbn [mbind result_bind].
  rewrite (merge_step_skip 2 _ _ c d) by done. cbn [mbind result_bind].
  rewrite Hfix. reflexivity.
Qed.

Lemma moveLeft_rows_fixed (rows : Board) (d : Z) :
  Forall (fun row => merge (compress row) = Ok (mkMerge row 0)) rows →
  moveLeft_rows rows d = Ok (rows, d).
Proof.
  intros Hall. revert d.
  induction Hall as [|row rows Hrow _ IH]; intros d; [reflexivity|].
  cbn [moveLeft_rows]. rewrite Hrow. cbn [mbind result_bind rowDelta mergedRow].
  rewrite IH. cbn [mbind result_bind]. by rewrite Z.add_0_r.
Qed.

Lemma moveLeft_fixed (b : Board) :
  Forall (fun row => merge (compress row) = Ok (mkMerge row 0)) b →
  moveLeft b = Ok (mkMove b 0).
Proof.
  intros Hall. unfold moveLeft. by rewrite (moveLeft_rows_fixed b 0 Hall).
Qed.

Lemma transpose4 (a0 a1 a2 a3 b0 b1 b2 b3 c0 c1 c2 c3 d0 d1 d2 d3 : Z) :
  transpose [[a0; a1; a2; a3]; [b0; b1; b2; b3]; [c0; c1; c2; c3]; [d0; d1; d2; d3]]
  = Ok [[a0; b0; c0; d0]; [a1; b1; c1; d1]; [a2; b2; c2; d2]; [a3; b3; c3; d3]].
Proof. reflexivity. Qed.

End Fixed.

(** ** The tile spawner *)

Section Spawn.

Lemma emptyCells_row_spec (r c0 : nat) (row : Row) (p : nat * nat) :
  p ∈ emptyCells_row r c0 row ↔ ∃ k, p = (r, (c0 + k)%nat) ∧ row !! k = Some 0.
Proof.
  revert c0. induction row as [|v row IH]; intros c0; cbn [emptyCells_row].
  - split; [intros H; by apply elem_of_nil in H | intros (k & _ & H); discriminate].
  - rewrite elem_of_app, IH. split.
    + intros [Hhere | (k & -> & Hk)].
      * destruct (Z.eqb_spec v 0) as [-> | _]; [|by apply elem_of_nil in Hhere].
        apply list_elem_of_singleton in Hhere as ->.
        exists 0%nat. by rewrite Nat.add_0_r.
      * exists (S k). split; [f_equal; lia | exact Hk].
    + intros ([|k] & -> & Hk).
      * left. injection Hk as ->. rewrite Nat.add_0_r. simpl. apply list_elem_of_here.
      * right. exists k. split; [f_equal; lia | exact Hk].
Qed.

Lemma emptyCells_from_spec (r0 : nat) (b : Board) (p : nat * nat) :
  p ∈ emptyCells_from r0 b ↔
  ∃ i c, p = ((r0 + i)%nat, c) ∧ tile b i c = Some 0.
Proof.
  revert r0. induction b as [|row b IH]; intros r0; cbn [emptyCells_from].
  - split; [intros H; by apply elem_of_nil in H|].
    intros (i & c & _ & H). by destruct i.
  - rewrite elem_of_app, IH, emptyCells_row_spec. split.
    + intros [(k & -> & Hk) | (i & c & -> & Hi)].
      * exists 0%nat, k. by rewrite Nat.add_0_r.
      * exists (S i), c. split; [f_equal; lia | exact Hi].
    + intros ([|i] & c & -> & Hi).
      * left. exists c. by rewrite Nat.add_0_r.
      * right. exists i, c. split; [f_equal; lia | exact Hi].
Qed.

(** [emptyCells] lists exactly the positions of the zero cells. *)
Lemma elem_of_emptyCells (b : Board) (r c : nat) :
  (r, c) ∈ emptyCells b ↔ tile b r c = Some 0.
Proof.
  unfold emptyCells. rewrite emptyCells_from_spec. split.
  - intros (i & k & [= -> ->] & H). exact H.
  - intros H. by exists r, c.
Qed.

(** [Math.floor(Math.random() * n)] is an index of an array of [n]
    elements. *)
Lemma random_index (u : Q) (n : nat) :
  (0 <= u)%Q → (u < 1)%Q → (0 < n)%nat →
  0 ≤ Qfloor (u * inject_Z (Z.of_nat n)) < Z.of_nat n.
Proof.
  intros Hlo Hhi Hn.
  assert (Hpos : (0 < inject_Z (Z.of_nat n))%Q).
  { rewrite <- (Zlt_Qlt 0). lia. }
  split.
  - change 0 with (Qfloor 0). apply Qfloor_resp_le.
    apply Qmult_le_0_compat; [exact Hlo | by apply Qlt_le_weak].
  - rewrite Zlt_Qlt. eapply Qle_lt_trans; [apply Qfloor_le|].
    rewrite <- (Qmult_1_l (inject_Z (Z.of_nat n))) at 2.
    by apply Qmult_lt_compat_r.
Qed.

Lemma array_get_in_range {A : Type} (a : list A) (k : Z) :
  0 ≤ k < Z.of_nat (length a) → ∃ x, array_get a k = Some x ∧ x ∈ a.
Proof.
  intros Hk. unfold array_get.
  destruct (Z.ltb_spec k 0) as [Hneg | _]; [lia|].
  destruct (lookup_lt_is_Some_2 a (Z.to_nat k)) as [x Hx]; [lia|].
  exists x. split; [exact Hx | exact (list_elem_of_lookup_2 _ _ _ Hx)].
Qed.

(** The value of the new tile is one of [TILE_VALUES]. *)
Lemma tile_value_cases (u : Q) :
  let value := if Qlt_bool u (nth 0 TILE_PROBABILITIES 0%Q)
               then nth 0 TILE_VALUES 0 else nth 1 TILE_VALUES 0 in
  value = 2 ∨ value = 4.
Proof. simpl. destruct (Qlt_bool u (9 # 10)); [by left | by right]. Qed.

Lemma tile_insert (b : Board) (r c : nat) (row : Row) (v : Z) (r' c' : nat) :
  b !! r = Some row → (c < length row)%nat →
  tile (<[r := <[c := v]> row]> b) r' c'
  = if decide (r' = r ∧ c' = c) then Some v else tile b r' c'.
Proof.
  intros Hrow Hc. unfold tile.
  pose proof (lookup_lt_Some _ _ _ Hrow) as Hr.
  destruct (decide (r' = r)) as [-> | Hne].
  - rewrite list_lookup_insert_eq, Hrow by exact Hr.
    destruct (decide (c' = c)) as [-> | Hnc].
    + rewrite list_lookup_insert_eq by exact Hc. by rewrite decide_True.
    + rewrite list_lookup_insert_ne by congruence.
      rewrite decide_False; [reflexivity | tauto].
  - rewrite list_lookup_insert_ne by congruence.
    rewrite decide_False; [reflexivity | tauto].
Qed.

Lemma row_lengths_insert (b : Board) (r c : nat) (row : Row) (v : Z) :
  b !! r = Some row →
  List.map (fun x : Row => length x) (<[r := <[c := v]> row]> b)
  = List.map (fun x : Row => length x) b.
Proof.
  intros Hrow. change (@List.map Row nat) with (@fmap list _ Row nat).
  rewrite list_fmap_insert, length_insert. apply list_insert_id.
  by rewrite list_lookup_fmap, Hrow.
Qed.

Lemma map_copy (b : Board) : List.map (fun row : Row => row) b = b.
Proof. induction b as [|row b IH]; simpl; [reflexivity | by rewrite IH]. Qed.

Section Draw.

Variables u1 u2 : Q.
Hypothesis u1_lower : (0 <= u1)%Q.
Hypothesis u1_upper : (u1 < 1)%Q.

(** With a zero cell on the board and a draw of [Math.random] in its
    range, [addRandomTile] overwrites one zero cell with 2 or 4. *)
Lemma addRandomTile_spawns (b : Board) :
  emptyCells b ≠ [] →
  ∃ r c row v, b !! r = Some row ∧ row !! c = Some 0 ∧ (v = 2 ∨ v = 4)
               ∧ addRandomTile u1 u2 b = Ok (<[r := <[c := v]> row]> b).
Proof.
  intros Hcells. unfold addRandomTile.
  destruct (Nat.eqb_spec (length (emptyCells b)) 0) as [Hlen | Hlen].
  { destruct (emptyCells b); [congruence | discriminate]. }
  destruct (array_get_in_range (emptyCells b)
              (Qfloor (u1 * inject_Z (Z.of_nat (length (emptyCells b))))))
    as ([r c] & Hget & Hin).
  { apply random_index; [exact u1_lower | exact u1_upper | lia]. }
  rewrite Hget. apply elem_of_emptyCells in Hin. unfold tile in Hin.
  rewrite map_copy.
  destruct (b !! r) as [row|] eqn:Hrow; [|discriminate].
  pose proof (lookup_lt_Some _ _ _ Hin) as Hc.
  unfold array_set. apply Nat.ltb_lt in Hc. rewrite Hc.
  cbn [mbind result_bind].
  eexists r, c, row, _. split; [exact Hrow|]. split; [exact Hin|].
  split; [apply tile_value_cases | reflexivity].
Qed.

End Draw.

Lemma emptyCells_nil (b : Board) :
  (∀ r c, tile b r c ≠ Some 0) → emptyCells b = [].
Proof.
  intros Hfull. destruct (emptyCells b) as [|[r c] cells] eqn:Hcells; [reflexivity|].
  exfalso. apply (Hfull r c). apply elem_of_emptyCells.
  rewrite Hcells. apply list_elem_of_here.
Qed.

End Spawn.

(** ** Outcomes of the loops *)

Section Loops.

Lemma mapM_Ok {A B : Type} (f : A → result B) (xs : list A) (ys : list B) :
  mapM f xs = Ok ys → Forall2 (fun x y => f x = Ok y) xs ys.
Proof.
  revert ys. induction xs as [|x xs IH]; intros ys H; cbn [mapM] in H.
  - injection H as <-. constructor.
  - destruct (f x) as [y| |] eqn:Hy; try discriminate. cbn [mbind result_bind] in H.
    destruct (mapM f xs) as [ys'| |]; try discriminate. cbn [mbind result_bind] in H.
    injection H as <-. constructor; [exact Hy | by apply IH].
Qed.

Lemma mapM_never_throws {A B : Type} (f : A → result B) (xs : list A) (e : error) :
  (∀ x e', f x ≠ Throw e') → mapM f xs ≠ Throw e.
Proof.
  intros Hf. induction xs as [|x xs IH]; cbn [mapM]; [discriminate|].
  destruct (f x) as [y| |] eqn:Hy; cbn [mbind result_bind];
    [|by destruct (Hf x e0) | discriminate].
  destruct (mapM f xs) as [ys| |]; cbn [mbind result_bind]; congruence.
Qed.

Lemma mapM_total {A B : Type} (f : A → result B) (xs : list A) :
  Forall (fun x => ∃ y, f x = Ok y) xs → ∃ ys, mapM f xs = Ok ys.
Proof.
  induction 1 as [|x xs [y Hy] _ [ys Hys]]; cbn [mapM]; [by eexists|].
  rewrite Hy. cbn [mbind result_bind]. rewrite Hys. by eexists.
Qed.

End Loops.

(** ** [transpose] on boards of any shape *)

Section Transpose.

Lemma transpose_Ok_cells (b t : Board) :
  transpose b = Ok t →
  ∃ row0, b !! 0%nat = Some row0 ∧ length t = length row0
    ∧ Forall (fun col : Row => length col = length b) t
    ∧ ∀ r c, (r < length row0)%nat → (c < length b)%nat →
        tile t r c = tile b c r ∧ is_Some (tile t r c).
Proof.
  unfold transpose. destruct (b !! 0%nat) as [row0|] eqn:H0; [|discriminate].
  intros Hmap. apply mapM_Ok in Hmap. exists row0. split; [reflexivity|].
  pose proof (Forall2_length _ _ _ Hmap) as Hlen. rewrite length_seq in Hlen.
  split; [by symmetry|]. split.
  - apply Forall_forall. intros col Hcol.
    apply list_elem_of_lookup_1 in Hcol as [i Hi].
    destruct (Forall2_lookup_r _ _ _ _ _ Hmap Hi) as (k & _ & Hk).
    apply mapM_Ok in Hk. symmetry. exact (Forall2_length _ _ _ Hk).
  - intros r c Hr Hc.
    destruct (Forall2_lookup_l _ _ _ r r Hmap) as (col & Hcol & Hk).
    { by apply lookup_seq_lt. }
    apply mapM_Ok in Hk.
    destruct (lookup_lt_is_Some_2 b c Hc) as [row Hrow].
    destruct (Forall2_lookup_l _ _ _ _ _ Hk Hrow) as (v & Hv & Hcell).
    unfold cell in Hcell. destruct (row !! r) as [w|] eqn:Hw; [|discriminate].
    injection Hcell as ->. unfold tile. rewrite Hcol, Hrow, Hv, Hw. eauto.
Qed.

Lemma transpose_all_cells (P : Z → Prop) (b t : Board) :
  transpose b = Ok t → all_cells P b → all_cells P t.
Proof.
  unfold transpose. destruct (b !! 0%nat) as [row0|]; [|discriminate].
  intros Hmap Hb. apply mapM_Ok in Hmap.
  apply Forall_forall. intros col Hcol.
  apply list_elem_of_lookup_1 in Hcol as [i Hi].
  destruct (Forall2_lookup_r _ _ _ _ _ Hmap Hi) as (k & _ & Hk).
  apply mapM_Ok in Hk. clear Hmap Hi.
  induction Hk as [|row v rows col Hv _ IH]; [constructor|].
  apply Forall_cons in Hb as [Hrow Hb]. constructor; [|by apply IH].
  unfold cell in Hv. destruct (row !! k) as [w|] eqn:Hw; [|discriminate].
  injection Hv as <-. exact (proj1 (Forall_lookup _ _) Hrow k w Hw).
Qed.

End Transpose.

Section TransposeShapes.

Lemma transpose_Throw (b : Board) (e : error) : transpose b = Throw e ↔ b = [].
Proof.
  split; [|intros ->; by destruct e].
  unfold transpose. destruct b as [|row0 b]; [reflexivity|]. cbn [lookup list_lookup].
  intros H. exfalso. revert H. apply mapM_never_throws. intros i e'.
  apply mapM_never_throws. intros row e''. unfold cell. by destruct (row !! i).
Qed.

Lemma transpose_rectangular (b : Board) (row0 : Row) :
  b !! 0%nat = Some row0 →
  Forall (fun row : Row => (length row0 ≤ length row)%nat) b →
  ∃ t, transpose b = Ok t.
Proof.
  intros H0 Hrows. unfold transpose. rewrite H0. apply mapM_total.
  apply Forall_forall. intros i Hi. apply elem_of_seq in Hi.
  apply mapM_total. eapply Forall_impl; [exact Hrows|]. cbn beta.
  intros row Hrow. unfold cell.
  destruct (lookup_lt_is_Some_2 row i) as [v Hv]; [lia|]. rewrite Hv. by eexists.
Qed.

Lemma transpose_Ok_rows (b t : Board) (row0 : Row) :
  transpose b = Ok t → b !! 0%nat = Some row0 →
  Forall (fun row : Row => (length row0 ≤ length row)%nat) b.
Proof.
  intros Ht H0. destruct (transpose_Ok_cells b t Ht) as (row0' & H0' & _ & _ & Hcells).
  rewrite H0 in H0'. injection H0' as <-.
  apply Forall_lookup. intros c row Hrow.
  destruct (decide (length row0 ≤ length row)%nat) as [|Hshort]; [assumption|].
  exfalso. pose proof (lookup_lt_Some _ _ _ Hrow) as Hc.
  destruct (Hcells (length row) c ltac:(lia) Hc) as [Heq [v Hv]].
  rewrite Heq in Hv. unfold tile in Hv. rewrite Hrow in Hv.
  apply lookup_lt_Some in Hv. lia.
Qed.

End TransposeShapes.

(** ** Predicates of the cells that the moves keep *)

Section CellInvariant.

Variable P : Z → Prop.
Hypothesis P_zero : P 0.
Hypothesis P_double : ∀ a, P a → a ≠ 0 → P (a * 2).

Lemma compress_Forall (row : Row) : Forall P row → Forall P (compress row).
Proof.
  intros Hrow. unfold compress. apply Forall_app. split.
  - apply Forall_forall. intros v Hv. apply list_elem_of_In, filter_In in Hv as [Hv _].
    apply list_elem_of_In in Hv. exact (proj1 (Forall_forall _ _) Hrow v Hv).
  - apply Forall_replicate. exact P_zero.
Qed.

Lemma merge_step_Forall (i : nat) (row row' : Row) (d d' : Z) :
  merge_step i (row, d) = Ok (row', d') → Forall P row → Forall P row'.
Proof.
  unfold merge_step. destruct (row !! i) as [a|] eqn:Ha; [|discriminate].
  destruct (negb (a =? 0) && _) eqn:Htest; intros [= <- <-] Hrow; [|exact Hrow].
  apply andb_prop in Htest as [Hnz _]. apply negb_true_iff, Z.eqb_neq in Hnz.
  apply Forall_insert; [|exact P_zero].
  apply Forall_insert; [exact Hrow|].
  apply P_double; [|exact Hnz]. exact (proj1 (Forall_lookup _ _) Hrow i a Ha).
Qed.

Lemma forM_merge_step_Forall (idxs : list nat) (row row' : Row) (d d' : Z) :
  forM merge_step idxs (row, d) = Ok (row', d') → Forall P row → Forall P row'.
Proof.
  revert row d. induction idxs as [|i idxs IH]; intros row d; cbn [forM].
  - by intros [= <- <-].
  - destruct (merge_step i (row, d)) as [[row1 d1]| |] eqn:Hstep; try discriminate.
    cbn [mbind result_bind]. intros Hloop Hrow.
    exact (IH _ _ Hloop (merge_step_Forall _ _ _ _ _ Hstep Hrow)).
Qed.

Lemma merge_Forall (row : Row) (m : MergeResult) :
  merge row = Ok m → Forall P row → Forall P (mergedRow m).
Proof.
  unfold merge.
  destruct (forM merge_step _ (row, 0)) as [[row' d']| |] eqn:Hloop; try discriminate.
  cbn [mbind result_bind]. intros [= <-] Hrow. cbn [mergedRow].
  apply compress_Forall. exact (forM_merge_step_Forall _ _ _ _ _ Hloop Hrow).
Qed.

Lemma moveLeft_rows_all_cells (rows moved : Board) (d d' : Z) :
  moveLeft_rows rows d = Ok (moved, d') → all_cells P rows → all_cells P moved.
Proof.
  revert moved d. induction rows as [|row rows IH]; intros moved d; cbn [moveLeft_rows].
  - by intros [= <- <-].
  - destruct (merge (compress row)) as [m| |] eqn:Hm; try discriminate.
    cbn [mbind result_bind].
    destruct (moveLeft_rows rows (d + rowDelta m)) as [[moved' d'']| |] eqn:Hrest;
      try discriminate.
    cbn [mbind result_bind]. intros [= <- <-] Hall.
    apply Forall_cons in Hall as [Hrow Hall]. constructor.
    + exact (merge_Forall _ _ Hm (compress_Forall _ Hrow)).
    + exact (IH _ _ Hrest Hall).
Qed.

Lemma moveLeft_all_cells (b : Board) (m : MoveResult) :
  moveLeft b = Ok m → all_cells P b → all_cells P (newBoard m).
Proof.
  unfold moveLeft.
  destruct (moveLeft_rows b 0) as [[moved d]| |] eqn:Hrows; try discriminate.
  cbn [mbind result_bind]. intros [= <-]. exact (moveLeft_rows_all_cells _ _ _ _ Hrows).
Qed.

Lemma reverse_all_cells (b : Board) : all_cells P b → all_cells P (reverse b).
Proof.
  unfold all_cells, reverse. induction 1 as [|row b Hrow _ IH]; simpl; constructor.
  - apply Forall_forall. intros v Hv. apply list_elem_of_In, in_rev, list_elem_of_In in Hv.
    exact (proj1 (Forall_forall _ _) Hrow v Hv).
  - exact IH.
Qed.

Lemma moveRight_all_cells (b : Board) (m : MoveResult) :
  moveRight b = Ok m → all_cells P b → all_cells P (newBoard m).
Proof.
  unfold moveRight. destruct (moveLeft (reverse b)) as [m'| |] eqn:Hm; try discriminate.
  cbn [mbind result_bind]. intros [= <-] Hb. cbn [newBoard].
  apply reverse_all_cells. apply (moveLeft_all_cells _ _ Hm). by apply reverse_all_cells.
Qed.

Lemma moveUp_all_cells (b : Board) (m : MoveResult) :
  moveUp b = Ok m → all_cells P b → all_cells P (newBoard m).
Proof.
  unfold moveUp. destruct (transpose b) as [t| |] eqn:Ht; try discriminate.
  cbn [mbind result_bind]. destruct (moveLeft t) as [m'| |] eqn:Hm; try discriminate.
  cbn [mbind result_bind].
  destruct (transpose (newBoard m')) as [t'| |] eqn:Ht'; try discriminate.
  cbn [mbind result_bind]. intros [= <-] Hb. cbn [newBoard].
  apply (transpose_all_cells P _ _ Ht'). apply (moveLeft_all_cells _ _ Hm).
  exact (transpose_all_cells P _ _ Ht Hb).
Qed.

Lemma moveDown_all_cells (b : Board) (m : MoveResult) :
  moveDown b = Ok m → all_cells P b → all_cells P (newBoard m).
Proof.
  unfold moveDown. destruct (transpose b) as [t| |] eqn:Ht; try discriminate.
  cbn [mbind result_bind]. destruct (moveRight t) as [m'| |] eqn:Hm; try discriminate.
  cbn [mbind result_bind].
  destruct (transpose (newBoard m')) as [t'| |] eqn:Ht'; try discriminate.
  cbn [mbind result_bind]. intros [= <-] Hb. cbn [newBoard].
  apply (transpose_all_cells P _ _ Ht'). apply (moveRight_all_cells _ _ Hm).
  exact (transpose_all_cells P _ _ Ht Hb).
Qed.

(** Whatever the shape of the board, a move that returns keeps [P] on all
    cells. *)
Lemma resolve_all_cells (d : string) (b : Board) (m : MoveResult) :
  resolve d b = Ok m → all_cells P b → all_cells P (newBoard m).
Proof.
  unfold resolve.
  destruct (String.eqb d "up"); [apply moveUp_all_cells|].
  destruct (String.eqb d "down"); [apply moveDown_all_cells|].
  destruct (String.eqb d "left"); [apply moveLeft_all_cells|].
  destruct (String.eqb d "right"); [apply moveRight_all_cells | discriminate].
Qed.

End CellInvariant.

(** ** Tile values *)

Section Tiles.

Lemma is_tile_zero : is_tile 0 = true.
Proof. reflexivity. Qed.

Lemma is_tile_double (a : Z) : is_tile a = true → a ≠ 0 → is_tile (a * 2) = true.
Proof.
  unfold is_tile. intros Ha Hnz.
  apply orb_prop in Ha as [Ha | Ha]; [apply Z.eqb_eq in Ha; contradiction|].
  apply andb_prop in Ha as [Hgt Hpow]. apply Z.ltb_lt in Hgt. apply Z.eqb_eq in Hpow.
  apply orb_true_intro. right. apply andb_true_intro. split; [apply Z.ltb_lt; lia|].
  apply Z.eqb_eq. rewrite (Z.mul_comm a 2), Z.log2_double by lia.
  rewrite Z.pow_succ_r by apply Z.log2_nonneg. lia.
Qed.

(** The tile values are 0 and the powers [2 ^ k] with [k] from 1 on. *)
Lemma is_tile_spec (v : Z) :
  is_tile v = true ↔ v = 0 ∨ ∃ k : nat, v = 2 ^ Z.of_nat (S k).
Proof.
  unfold is_tile. rewrite orb_true_iff, andb_true_iff, Z.eqb_eq, Z.ltb_lt, Z.eqb_eq.
  split; (intros [H0 | H]; [by left | right]).
  - destruct H as [Hgt Hpow].
    assert (Hlog : 0 < Z.log2 v) by (apply Z.log2_pos; lia).
    exists (Z.to_nat (Z.log2 v - 1)). rewrite Hpow at 1. f_equal. lia.
  - destruct H as [k ->].
    assert (Hk : 0 ≤ Z.of_nat (S k)) by lia.
    rewrite Z.log2_pow2 by exact Hk. split; [|reflexivity].
    rewrite Nat2Z.inj_succ, Z.pow_succ_r by lia.
    pose proof (Z.pow_pos_nonneg 2 (Z.of_nat k)). lia.
Qed.

Lemma is_tile_nonneg (v : Z) : is_tile v = true → 0 ≤ v.
Proof.
  unfold is_tile. intros H. apply orb_prop in H as [H | H].
  - apply Z.eqb_eq in H. lia.
  - apply andb_prop in H as [H _]. apply Z.ltb_lt in H. lia.
Qed.

Lemma tiles_nonneg (b : Board) :
  all_cells (fun v => is_tile v = true) b → all_cells (fun v => 0 ≤ v) b.
Proof.
  intros Hall. eapply Forall_impl; [exact Hall|]. cbn beta. intros row Hrow.
  eapply Forall_impl; [exact Hrow|]. exact is_tile_nonneg.
Qed.

End Tiles.

(** ** The score of a move *)

Section Score.

Lemma merge_step_delta (i : nat) (row row' : Row) (d d' : Z) :
  merge_step i (row, d) = Ok (row', d') → Forall (fun v => 0 ≤ v) row → d ≤ d'.
Proof.
  unfold merge_step. destruct (row !! i) as [a|] eqn:Ha; [|discriminate].
  destruct (negb (a =? 0) && _); intros [= <- <-] Hrow; [|lia].
  pose proof (proj1 (Forall_lookup _ _) Hrow i a Ha). simpl in *. lia.
Qed.

Lemma nonneg_double (a : Z) : 0 ≤ a → a ≠ 0 → 0 ≤ a * 2.
Proof. lia. Qed.

Lemma forM_merge_step_delta (idxs : list nat) (row row' : Row) (d d' : Z) :
  forM merge_step idxs (row, d) = Ok (row', d') → Forall (fun v => 0 ≤ v) row → d ≤ d'.
Proof.
  revert row d. induction idxs as [|i idxs IH]; intros row d; cbn [forM].
  - intros [= <- <-]. lia.
  - destruct (merge_step i (row, d)) as [[row1 d1]| |] eqn:Hstep; try discriminate.
    cbn [mbind result_bind]. intros Hloop Hrow.
    pose proof (merge_step_delta _ _ _ _ _ Hstep Hrow).
    pose proof (merge_step_Forall (fun v => 0 ≤ v) (Z.le_refl 0) nonneg_double
                  _ _ _ _ _ Hstep Hrow) as Hrow1.
    pose proof (IH _ _ Hloop Hrow1). lia.
Qed.

Lemma merge_delta (row : Row) (m : MergeResult) :
  merge row = Ok m → Forall (fun v => 0 ≤ v) row → 0 ≤ rowDelta m.
Proof.
  unfold merge.
  destruct (forM merge_step _ (row, 0)) as [[row' d']| |] eqn:Hloop; try discriminate.
  cbn [mbind result_bind]. intros [= <-] Hrow. cbn [rowDelta].
  exact (forM_merge_step_delta _ _ _ _ _ Hloop Hrow).
Qed.

Lemma moveLeft_rows_delta (rows moved : Board) (d d' : Z) :
  moveLeft_rows rows d = Ok (moved, d') → all_cells (fun v => 0 ≤ v) rows → d ≤ d'.
Proof.
  revert moved d. induction rows as [|row rows IH]; intros moved d; cbn [moveLeft_rows].
  - intros [= <- <-]. lia.
  - destruct (merge (compress row)) as [m| |] eqn:Hm; try discriminate.
    cbn [mbind result_bind].
    destruct (moveLeft_rows rows (d + rowDelta m)) as [[moved' d'']| |] eqn:Hrest;
      try discriminate.
    cbn [mbind result_bind]. intros [= <- <-] Hall.
    apply Forall_cons in Hall as [Hrow Hall].
    pose proof (merge_delta _ _ Hm
                  (compress_Forall (fun v => 0 ≤ v) (Z.le_refl 0) _ Hrow)).
    pose proof (IH _ _ Hrest Hall). lia.
Qed.

Lemma moveLeft_delta (b : Board) (m : MoveResult) :
  moveLeft b = Ok m → all_cells (fun v => 0 ≤ v) b → 0 ≤ scoreDelta m.
Proof.
  unfold moveLeft.
  destruct (moveLeft_rows b 0) as [[moved d]| |] eqn:Hrows; try discriminate.
  cbn [mbind result_bind]. intros [= <-]. exact (moveLeft_rows_delta _ _ _ _ Hrows).
Qed.

Lemma moveRight_delta (b : Board) (m : MoveResult) :
  moveRight b = Ok m → all_cells (fun v => 0 ≤ v) b → 0 ≤ scoreDelta m.
Proof.
  unfold moveRight. destruct (moveLeft (reverse b)) as [m'| |] eqn:Hm; try discriminate.
  cbn [mbind result_bind]. intros [= <-] Hb. cbn [scoreDelta].
  apply (moveLeft_delta _ _ Hm). by apply reverse_all_cells.
Qed.

(** On non-negative cells the score of a move is not negative, whatever
    the shape of the board. *)
Lemma resolve_delta (d : string) (b : Board) (m : MoveResult) :
  resolve d b = Ok m → all_cells (fun v => 0 ≤ v) b → 0 ≤ scoreDelta m.
Proof.
  unfold resolve.
  destruct (String.eqb d "up").
  { unfold moveUp. destruct (transpose b) as [t| |] eqn:Ht; try discriminate.
    cbn [mbind result_bind]. destruct (moveLeft t) as [m'| |] eqn:Hm; try discriminate.
    cbn [mbind result_bind]. destruct (transpose (newBoard m')); try discriminate.
    cbn [mbind result_bind]. intros [= <-] Hb. cbn [scoreDelta].
    apply (moveLeft_delta _ _ Hm). exact (transpose_all_cells _ _ _ Ht Hb). }
  destruct (String.eqb d "down").
  { unfold moveDown. destruct (transpose b) as [t| |] eqn:Ht; try discriminate.
    cbn [mbind result_bind]. destruct (moveRight t) as [m'| |] eqn:Hm; try discriminate.
    cbn [mbind result_bind]. destruct (transpose (newBoard m')); try discriminate.
    cbn [mbind result_bind]. intros [= <-] Hb. cbn [scoreDelta].
    apply (moveRight_delta _ _ Hm). exact (transpose_all_cells _ _ _ Ht Hb). }
  destruct (String.eqb d "left"); [apply moveLeft_delta|].
  destruct (String.eqb d "right"); [apply moveRight_delta | discriminate].
Qed.

End Score.

(** ** The range of exact arithmetic *)

Section Budget.

Lemma row_sum_nonneg (row : Row) : Forall (fun v => 0 ≤ v) row → 0 ≤ row_sum row.
Proof. induction 1 as [|v row Hv _ IH]; simpl; lia. Qed.

Lemma board_sum_nonneg (b : Board) : all_cells (fun v => 0 ≤ v) b → 0 ≤ board_sum b.
Proof.
  induction 1 as [|row b Hrow _ IH]; simpl; [lia|].
  pose proof (row_sum_nonneg row Hrow). lia.
Qed.

Lemma row_sum_cell (row : Row) (i : nat) (v : Z) :
  Forall (fun v => 0 ≤ v) row → row !! i = Some v → v ≤ row_sum row.
Proof.
  intros Hrow. revert i. induction Hrow as [|w row Hw Hrow IH]; intros i Hi;
    [by destruct i|].
  pose proof (row_sum_nonneg row Hrow). destruct i as [|i]; simpl in *.
  - injection Hi as ->. lia.
  - pose proof (IH i Hi). lia.
Qed.

(** One iteration of the loop of [merge] does not spend more than the
    cells it leaves behind: the score and the cells still to scan together
    do not grow. *)
Lemma merge_step_budget (i : nat) (row row' : Row) (d d' : Z) :
  merge_step i (row, d) = Ok (row', d') → Forall (fun v => 0 ≤ v) row →
  d' + row_sum (drop (S i) row') ≤ d + row_sum (drop i row).
Proof.
  unfold merge_step. destruct (row !! i) as [a|] eqn:Ha; [|discriminate].
  intros Hstep Hrow.
  assert (Ha0 : 0 ≤ a) by exact (proj1 (Forall_lookup _ _) Hrow i a Ha).
  rewrite (drop_S row a i Ha). cbn [row_sum foldr].
  destruct (negb (a =? 0) && _) eqn:Htest; injection Hstep as <- <-.
  - apply andb_prop in Htest as [_ Hnext]. apply strict_eq_Some in Hnext.
    rewrite (drop_S row a (S i) Hnext). cbn [row_sum foldr].
    rewrite (drop_S _ 0 (S i)).
    2:{ apply list_lookup_insert_eq. rewrite length_insert.
        exact (lookup_lt_Some _ _ _ Hnext). }
    cbn [row_sum foldr]. rewrite !drop_insert_lt by lia.
    fold (row_sum (drop (S (S i)) row)). lia.
  - fold (row_sum (drop (S i) row)). lia.
Qed.

Lemma forM_merge_step_budget (n i : nat) (row row' : Row) (d d' : Z) :
  forM merge_step (seq i n) (row, d) = Ok (row', d') →
  Forall (fun v => 0 ≤ v) row →
  d' + row_sum (drop (i + n) row') ≤ d + row_sum (drop i row).
Proof.
  revert i row d. induction n as [|n IH]; intros i row d; cbn [seq forM].
  - intros [= <- <-] _. rewrite Nat.add_0_r. lia.
  - destruct (merge_step i (row, d)) as [[row1 d1]| |] eqn:Hstep; try discriminate.
    cbn [mbind result_bind]. intros Hloop Hrow.
    pose proof (merge_step_budget _ _ _ _ _ Hstep Hrow) as H1.
    pose proof (merge_step_Forall (fun v => 0 ≤ v) (Z.le_refl 0) nonneg_double
                  _ _ _ _ _ Hstep Hrow) as Hrow1.
    pose proof (IH _ _ _ Hloop Hrow1) as H2.
    replace (i + S n)%nat with (S i + n)%nat by lia. lia.
Qed.

Lemma merge_budget (row : Row) (m : MergeResult) :
  merge row = Ok m → Forall (fun v => 0 ≤ v) row → rowDelta m ≤ row_sum row.
Proof.
  unfold merge.
  destruct (forM merge_step _ (row, 0)) as [[row' d']| |] eqn:Hloop; try discriminate.
  cbn [mbind result_bind]. intros [= <-] Hrow. cbn [rowDelta].
  pose proof (forM_merge_step_budget _ _ _ _ _ _ Hloop Hrow) as Hbudget.
  pose proof (forM_merge_step_Forall (fun v => 0 ≤ v) (Z.le_refl 0) nonneg_double
                _ _ _ _ _ Hloop Hrow) as Hrow'.
  pose proof (row_sum_nonneg _ (Forall_drop _ (0 + (BOARD_SIZE - 1)) _ Hrow')).
  rewrite drop_0 in Hbudget. lia.
Qed.

Lemma moveLeft_rows_budget (rows moved : Board) (d d' : Z) :
  moveLeft_rows rows d = Ok (moved, d') → all_cells (fun v => 0 ≤ v) rows →
  d' ≤ d + board_sum rows.
Proof.
  revert moved d. induction rows as [|row rows IH]; intros moved d; cbn [moveLeft_rows].
  - intros [= <- <-] _. simpl. lia.
  - destruct (merge (compress row)) as [m| |] eqn:Hm; try discriminate.
    cbn [mbind result_bind].
    destruct (moveLeft_rows rows (d + rowDelta m)) as [[moved' d'']| |] eqn:Hrest;
      try discriminate.
    cbn [mbind result_bind]. intros [= <- <-] Hall.
    apply Forall_cons in Hall as [Hrow Hall].
    pose proof (merge_budget _ _ Hm
                  (compress_Forall (fun v => 0 ≤ v) (Z.le_refl 0) _ Hrow)) as H1.
    rewrite row_sum_compress in H1. pose proof (IH _ _ Hrest Hall). simpl. lia.
Qed.

(** On a board without negative cells, of any shape, the score of the
    left move is at most the sum of the cells. *)
Lemma moveLeft_budget (b : Board) (m : MoveResult) :
  moveLeft b = Ok m → all_cells (fun v => 0 ≤ v) b → scoreDelta m ≤ board_sum b.
Proof.
  unfold moveLeft.
  destruct (moveLeft_rows b 0) as [[moved d]| |] eqn:Hrows; try discriminate.
  cbn [mbind result_bind]. intros [= <-] Hb. cbn [scoreDelta].
  pose proof (moveLeft_rows_budget _ _ _ _ Hrows Hb). lia.
Qed.

Lemma moveRight_budget (b : Board) (m : MoveResult) :
  moveRight b = Ok m → all_cells (fun v => 0 ≤ v) b → scoreDelta m ≤ board_sum b.
Proof.
  unfold moveRight. destruct (moveLeft (reverse b)) as [m'| |] eqn:Hm; try discriminate.
  cbn [mbind result_bind]. intros [= <-] Hb. cbn [scoreDelta].
  rewrite <- (reverse_sum b). apply (moveLeft_budget _ _ Hm).
  by apply reverse_all_cells.
Qed.

(** On a board of the game without negative cells, the score of each of
    the four moves is at most the sum of the cells. *)
Lemma resolve_budget (d : string) (b : Board) (m : MoveResult) :
  d ∈ Directions → is_board b → resolve d b = Ok m →
  all_cells (fun v => 0 ≤ v) b → scoreDelta m ≤ board_sum b.
Proof.
  intros Hd Hb. destruct (transpose_board b Hb) as (t & Ht & _ & _ & Hsum & _).
  destruct (Directions_inv d Hd) as [-> | [-> | [-> | ->]]].
  - rewrite resolve_up. unfold moveUp. rewrite Ht. cbn [mbind result_bind].
    destruct (moveLeft t) as [m'| |] eqn:Hm; try discriminate. cbn [mbind result_bind].
    destruct (transpose (newBoard m')); try discriminate.
    cbn [mbind result_bind]. intros [= <-] Hcells. cbn [scoreDelta]. rewrite <- Hsum.
    apply (moveLeft_budget _ _ Hm). exact (transpose_all_cells _ _ _ Ht Hcells).
  - rewrite resolve_down. unfold moveDown. rewrite Ht. cbn [mbind result_bind].
    destruct (moveRight t) as [m'| |] eqn:Hm; try discriminate. cbn [mbind result_bind].
    destruct (transpose (newBoard m')); try discriminate.
    cbn [mbind result_bind]. intros [= <-] Hcells. cbn [scoreDelta]. rewrite <- Hsum.
    apply (moveRight_budget _ _ Hm). exact (transpose_all_cells _ _ _ Ht Hcells).
  - rewrite resolve_left. apply moveLeft_budget.
  - rewrite resolve_right. apply moveRight_budget.
Qed.

(** Each of the four moves keeps a board of the game in the range of
    exact arithmetic, with its sum. *)
Lemma resolve_safe (d : string) (b : Board) :
  d ∈ Directions → is_board b → safe_board b →
  ∃ m, resolve d b = Ok m ∧ is_board (newBoard m)
       ∧ board_sum (newBoard m) = board_sum b ∧ safe_board (newBoard m)
       ∧ 0 ≤ scoreDelta m ≤ board_sum b.
Proof.
  intros Hd Hb [Hcells Hmax].
  assert (Hweak : ∀ P r, moves_to b P r →
            ∃ m, r = Ok m ∧ is_board (newBoard m)
                 ∧ board_sum (newBoard m) = board_sum b).
  { intros P r (m & Hm & Hbm & Hsum & _). by exists m. }
  assert (Hm : ∃ m, resolve d b = Ok m ∧ is_board (newBoard m)
                    ∧ board_sum (newBoard m) = board_sum b).
  { destruct (Directions_inv d Hd) as [-> | [-> | [-> | ->]]].
    - rewrite resolve_up. exact (Hweak _ _ (moveUp_board b Hb)).
    - rewrite resolve_down. exact (Hweak _ _ (moveDown_board b Hb)).
    - rewrite resolve_left. exact (Hweak _ _ (moveLeft_board b Hb)).
    - rewrite resolve_right. exact (Hweak _ _ (moveRight_board b Hb)). }
  destruct Hm as (m & Hm & Hbm & Hsum). exists m.
  split; [exact Hm|]. split; [exact Hbm|]. split; [exact Hsum|].
  split.
  - split; [|lia].
    exact (resolve_all_cells (fun v => 0 ≤ v) (Z.le_refl 0) nonneg_double d b m Hm Hcells).
  - split; [exact (resolve_delta d b m Hm Hcells)|].
    exact (resolve_budget d b m Hd Hb Hm Hcells).
Qed.

End Budget.

(** * Properties *)

Section Properties.

Lemma two_twos_is_board : is_board two_twos.
Proof. split; [reflexivity | repeat constructor]. Defined.

Lemma checkered_is_board : is_board checkered.
Proof. split; [reflexivity | repeat constructor]. Defined.

Lemma left_in_Directions : "left" ∈ Directions.
Proof. unfold Directions. do 2 apply list_elem_of_further. apply list_elem_of_here. Defined.

Lemma up_in_Directions : "up" ∈ Directions.
Proof. apply list_elem_of_here. Defined.

Lemma not_in_Directions (d : string) :
  d ∉ Directions ↔ d ≠ "up" ∧ d ≠ "down" ∧ d ≠ "left" ∧ d ≠ "right".
Proof.
  unfold Directions. rewrite !not_elem_of_cons. pose proof (not_elem_of_nil d). tauto.
Qed.

Lemma two_twos_safe : safe_board two_twos.
Proof. split; [repeat constructor; discriminate | discriminate]. Defined.

Lemma diagonal_not_direction : "diagonal" ∉ Directions.
Proof. apply not_in_Directions. repeat split; discriminate. Defined.

End Properties.

(** C1, as stated: a merge of two tiles 2 keeps the sum 4 of the board
    while the score of the move is 4, so the sum does not grow by the
    score. *)
Lemma mass_grows_by_delta_fails : ¬ mass_grows_by_delta "left" two_twos.
Proof.
  intros (m & Hm & Hsum). vm_compute in Hm. injection Hm as <-.
  vm_compute in Hsum. discriminate.
Qed.

(** C1, amended: on a board of the game in the range of exact arithmetic
    (no negative cell, sum of the cells a safe integer) every move returns,
    and the sum of all tile values of the new board equals the sum of all
    tile values of the board: a merge replaces two tiles [v] by one tile
    [2 v].  The score of the move lies between 0 and that sum and is not
    added to it, and the new board is in the same range. *)
Theorem move_conserves_mass (d : string) (b : Board) :
  d ∈ Directions → is_board b → safe_board b →
  ∃ m, resolve d b = Ok m ∧ board_sum (newBoard m) = board_sum b
       ∧ safe_board (newBoard m) ∧ 0 ≤ scoreDelta m ≤ board_sum b.
Proof.
  intros Hd Hb Hsafe.
  destruct (resolve_safe d b Hd Hb Hsafe) as (m & Hm & _ & Hsum & Hsafe' & Hscore).
  exists m. auto.
Qed.

(** The left move of [two_twos] keeps the sum 4. *)
Lemma move_conserves_mass_witness :
  "left" ∈ Directions ∧ is_board two_twos ∧ safe_board two_twos
  ∧ ∃ m, resolve "left" two_twos = Ok m
         ∧ board_sum (newBoard m) = board_sum two_twos
         ∧ safe_board (newBoard m) ∧ 0 ≤ scoreDelta m ≤ board_sum two_twos.
Proof.
  split; [exact left_in_Directions|]. split; [exact two_twos_is_board|].
  split; [exact two_twos_safe|].
  exact (move_conserves_mass "left" two_twos left_in_Directions two_twos_is_board
           two_twos_safe).
Defined.

(** C2: the line reducer, [compress] then [merge], does not revisit a
    merged tile: [2,2,2,0] gives [4,2,0,0] with score 4 and [2,2,2,2] gives
    [4,4,0,0] with score 8, also as rows of a left move. *)
Theorem reduce_no_revisit :
  (merge (compress [2; 2; 2; 0]) = Ok (mkMerge [4; 2; 0; 0] 4))
  ∧ (merge (compress [2; 2; 2; 2]) = Ok (mkMerge [4; 4; 0; 0] 8))
  ∧ (moveLeft [[2; 2; 2; 0]; [2; 2; 2; 2]; [0; 0; 0; 0]; [0; 0; 0; 0]]
     = Ok (mkMove [[4; 2; 0; 0]; [4; 4; 0; 0]; [0; 0; 0; 0]; [0; 0; 0; 0]] 12)).
Proof. repeat split. Qed.

(** C3, as stated: the direction ["diagonal"] does not fail with an
    exception called InvalidDirection. *)
Lemma invalid_direction_not_raised :
  ("diagonal" ∉ Directions)
  ∧ ¬ fails_with "InvalidDirection" (resolve "diagonal" two_twos).
Proof.
  split.
  - exact diagonal_not_direction.
  - intros (e & He & Hname). vm_compute in He. injection He as <-. discriminate.
Qed.

(** C3, amended: for a direction outside the four of the parameter type,
    no case of the [switch] matches and destructuring the undefined
    [result] raises a [TypeError]; [handleMove] fails so while the game is
    running and returns without effect once it is over. *)
Theorem unknown_direction_TypeError (d : string) (b : Board) :
  d ∉ Directions →
  resolve d b = Throw TypeError
  ∧ ∀ u1 u2 st,
      handleMove u1 u2 st d
      = (st, if gameOver st then Ok tt else Throw TypeError).
Proof.
  intros Hd. apply not_in_Directions in Hd as (Hup & Hdown & Hleft & Hright).
  assert (Hswitch : ∀ x, resolve d x = Throw TypeError).
  { intros x. unfold resolve.
    apply String.eqb_neq in Hup, Hdown, Hleft, Hright.
    by rewrite Hup, Hdown, Hleft, Hright. }
  split; [apply Hswitch|].
  intros u1 u2 st. unfold handleMove.
  destruct (gameOver st); [reflexivity|]. by rewrite Hswitch.
Qed.

(** The direction ["diagonal"]. *)
Lemma unknown_direction_TypeError_witness :
  ("diagonal" ∉ Directions)
  ∧ resolve "diagonal" two_twos = Throw TypeError
  ∧ ∀ u1 u2 st,
      handleMove u1 u2 st "diagonal"
      = (st, if gameOver st then Ok tt else Throw TypeError).
Proof.
  split; [exact diagonal_not_direction|].
  exact (unknown_direction_TypeError "diagonal" two_twos diagonal_not_direction).
Defined.

(** The three facts of a cell of a board without moves. *)
Ltac cell_facts H r c :=
  let F := fresh "F" in
  pose proof (H r c _ eq_refl) as F; cbn in F; destruct F as (? & ? & ?).

(** C4: on a board of the game where [hasMoves] returns [false], each of
    the four moves returns the board itself with score 0. *)
Theorem terminal_board_fixed (b : Board) (d : string) :
  is_board b → hasMoves b = Ok false → d ∈ Directions →
  resolve d b = Ok (mkMove b 0).
Proof.
  intros Hb Hno Hd. rewrite (hasMoves_refines b Hb) in Hno. injection Hno as Hno.
  pose proof (spec_hasMoves_false b Hb Hno) as Hcells. clear Hno.
  name_cells Hb.
  cell_facts Hcells 0%nat 0%nat. cell_facts Hcells 0%nat 1%nat.
  cell_facts Hcells 0%nat 2%nat. cell_facts Hcells 0%nat 3%nat.
  cell_facts Hcells 1%nat 0%nat. cell_facts Hcells 1%nat 1%nat.
  cell_facts Hcells 1%nat 2%nat. cell_facts Hcells 1%nat 3%nat.
  cell_facts Hcells 2%nat 0%nat. cell_facts Hcells 2%nat 1%nat.
  cell_facts Hcells 2%nat 2%nat. cell_facts Hcells 2%nat 3%nat.
  cell_facts Hcells 3%nat 0%nat. cell_facts Hcells 3%nat 1%nat.
  cell_facts Hcells 3%nat 2%nat. cell_facts Hcells 3%nat 3%nat.
  clear Hcells.
  destruct (Directions_inv d Hd) as [-> | [-> | [-> | ->]]].
  - rewrite resolve_up. unfold moveUp. rewrite transpose4. cbn [mbind result_bind].
    rewrite moveLeft_fixed by (repeat constructor; apply reduce_fixed; congruence).
    cbn [mbind result_bind newBoard scoreDelta]. by rewrite transpose4.
  - rewrite resolve_down. unfold moveDown, moveRight. rewrite transpose4.
    cbn [mbind result_bind reverse List.map rev app].
    rewrite moveLeft_fixed by (repeat constructor; apply reduce_fixed; congruence).
    cbn [mbind result_bind newBoard scoreDelta reverse List.map rev app].
    by rewrite transpose4.
  - rewrite resolve_left.
    by rewrite moveLeft_fixed by (repeat constructor; apply reduce_fixed; congruence).
  - rewrite resolve_right. unfold moveRight. cbn [reverse List.map rev app].
    by rewrite moveLeft_fixed by (repeat constructor; apply reduce_fixed; congruence).
Qed.

(** The checkered board has no move; the up move returns it. *)
Lemma terminal_board_fixed_witness :
  is_board checkered ∧ hasMoves checkered = Ok false ∧ "up" ∈ Directions
  ∧ resolve "up" checkered = Ok (mkMove checkered 0).
Proof.
  split; [exact checkered_is_board|]. split; [reflexivity|].
  split; [exact up_in_Directions|].
  exact (terminal_board_fixed checkered "up" checkered_is_board eq_refl up_in_Directions).
Defined.

(** C5: on a board of the game [hasMoves] returns [true] exactly when some
    cell is 0, or equals its right neighbour in its row, or equals the
    cell below it in its column; so a board with a zero cell gives [true],
    and a full board without equal neighbours gives [false]. *)
Theorem hasMoves_iff (b : Board) :
  is_board b →
  (∃ found, hasMoves b = Ok found
     ∧ (found = true ↔
        ∃ r c v, tile b r c = Some v
                 ∧ (v = 0 ∨ tile b r (S c) = Some v ∨ tile b (S r) c = Some v)))
  ∧ ((∃ r c, tile b r c = Some 0) → hasMoves b = Ok true)
  ∧ ((∀ r c v, tile b r c = Some v →
        v ≠ 0 ∧ tile b r (S c) ≠ Some v ∧ tile b (S r) c ≠ Some v) →
     hasMoves b = Ok false).
Proof.
  intros Hb. rewrite (hasMoves_refines b Hb).
  pose proof (spec_hasMoves_true b Hb) as Hspec. split; [|split].
  - exists (spec_hasMoves b). split; [reflexivity | exact Hspec].
  - intros (r & c & Hzero). f_equal. apply Hspec. exists r, c, 0. auto.
  - intros Hnone. f_equal. apply not_true_iff_false. intros Htrue.
    apply Hspec in Htrue as (r & c & v & Hv & Hcase).
    destruct (Hnone r c v Hv) as (H0 & Hright & Hbelow). tauto.
Qed.

(** The checkered board and a board with zero cells. *)
Lemma hasMoves_iff_witness :
  is_board checkered
  ∧ (∃ found, hasMoves checkered = Ok found
       ∧ (found = true ↔
          ∃ r c v, tile checkered r c = Some v
                   ∧ (v = 0 ∨ tile checkered r (S c) = Some v
                      ∨ tile checkered (S r) c = Some v)))
  ∧ is_board two_twos ∧ hasMoves two_twos = Ok true.
Proof.
  split; [exact checkered_is_board|].
  split; [exact (proj1 (hasMoves_iff checkered checkered_is_board))|].
  split; [exact two_twos_is_board|].
  apply (proj1 (proj2 (hasMoves_iff two_twos two_twos_is_board))).
  exists 0%nat, 2%nat. reflexivity.
Defined.

(** C6: when the board has a zero cell, [addRandomTile] returns a board
    that differs from it in exactly one cell, which held 0 and now holds 2
    or 4; every other cell and the shape of the board are unchanged.  The
    draw of [Math.random] lies in its range. *)
Theorem spawn_changes_one_cell (u1 u2 : Q) (b : Board) :
  (0 <= u1)%Q → (u1 < 1)%Q → (∃ r c, tile b r c = Some 0) →
  ∃ nb r c v,
    addRandomTile u1 u2 b = Ok nb
    ∧ tile b r c = Some 0 ∧ tile nb r c = Some v ∧ (v = 2 ∨ v = 4)
    ∧ (∀ r' c', (r', c') ≠ (r, c) → tile nb r' c' = tile b r' c')
    ∧ List.map (fun row : Row => length row) nb
      = List.map (fun row : Row => length row) b.
Proof.
  intros Hlo Hhi (r0 & c0 & Hzero).
  destruct (addRandomTile_spawns u1 u2 Hlo Hhi b)
    as (r & c & row & v & Hrow & Hcell & Hv & Hspawn).
  { intros Hnil. apply elem_of_emptyCells in Hzero. rewrite Hnil in Hzero.
    by apply elem_of_nil in Hzero. }
  pose proof (lookup_lt_Some _ _ _ Hcell) as Hc.
  exists (<[r := <[c := v]> row]> b), r, c, v.
  split; [exact Hspawn|]. split; [unfold tile; by rewrite Hrow|].
  split; [rewrite (tile_insert b r c row v r c Hrow Hc); by rewrite decide_True|].
  split; [exact Hv|]. split.
  - intros r' c' Hne. rewrite (tile_insert b r c row v r' c' Hrow Hc).
    rewrite decide_False; [reflexivity|]. intros [-> ->]. by apply Hne.
  - exact (row_lengths_insert b r c row v Hrow).
Qed.

(** Both draws equal to one half, on [two_twos]. *)
Lemma spawn_changes_one_cell_witness :
  (0 <= 1 # 2)%Q ∧ (1 # 2 < 1)%Q ∧ (∃ r c, tile two_twos r c = Some 0)
  ∧ ∃ nb r c v,
      addRandomTile (1 # 2) (1 # 2) two_twos = Ok nb
      ∧ tile two_twos r c = Some 0 ∧ tile nb r c = Some v ∧ (v = 2 ∨ v = 4)
      ∧ (∀ r' c', (r', c') ≠ (r, c) → tile nb r' c' = tile two_twos r' c')
      ∧ List.map (fun row : Row => length row) nb
        = List.map (fun row : Row => length row) two_twos.
Proof.
  assert (Hlo : (0 <= 1 # 2)%Q) by (unfold Qle; simpl; lia).
  assert (Hhi : (1 # 2 < 1)%Q) by reflexivity.
  assert (Hzero : ∃ r c, tile two_twos r c = Some 0)
    by (exists 0%nat, 2%nat; reflexivity).
  split; [exact Hlo|]. split; [exact Hhi|]. split; [exact Hzero|].
  exact (spawn_changes_one_cell (1 # 2) (1 # 2) two_twos Hlo Hhi Hzero).
Defined.

(** C7: when the board has no zero cell, [addRandomTile] returns the board
    itself; it does not raise. *)
Theorem spawn_full_board (u1 u2 : Q) (b : Board) :
  (∀ r c, tile b r c ≠ Some 0) → addRandomTile u1 u2 b = Ok b.
Proof.
  intros Hfull. unfold addRandomTile. by rewrite (emptyCells_nil b Hfull).
Qed.

Lemma checkered_full : ∀ r c, tile checkered r c ≠ Some 0.
Proof.
  intros r c.
  destruct r as [|[|[|[|r]]]]; destruct c as [|[|[|[|c]]]]; discriminate.
Defined.

(** The checkered board is full. *)
Lemma spawn_full_board_witness :
  (∀ r c, tile checkered r c ≠ Some 0)
  ∧ addRandomTile (1 # 2) (1 # 2) checkered = Ok checkered.
Proof.
  split; [exact checkered_full|].
  exact (spawn_full_board (1 # 2) (1 # 2) checkered checkered_full).
Defined.

Lemma small_board_not_board : ¬ is_board small_board.
Proof. intros [Hlen _]. discriminate. Defined.

Lemma small_board_safe : safe_board small_board.
Proof. split; [repeat constructor; discriminate | discriminate]. Defined.

(** C8, as stated: the left move of a board of two rows of two cells
    returns a board; it does not fail with an exception called
    InvalidBoard. *)
Lemma invalid_board_not_raised :
  ¬ is_board small_board
  ∧ moveLeft small_board = Ok (mkMove [[4; 0; 0; 0]; [0; 0; 0; 0]] 4)
  ∧ ¬ fails_with "InvalidBoard" (moveLeft small_board).
Proof.
  split; [exact small_board_not_board|]. split; [reflexivity|].
  intros (e & He & _). discriminate.
Qed.

(** C8, amended: the engine does not validate the dimensions of a board
    and has no InvalidBoard failure.  On a board that is not 4x4 no move
    fails with InvalidBoard; on the empty board [transpose], the up and
    down moves and [hasMoves] raise a [TypeError]; and when the board is
    in the range of exact arithmetic (no negative cell, sum of the cells a
    safe integer) the left and right moves return a board in that range
    (same number of rows, each of 4 cells or more, same sum) with a score
    between 0 and the sum. *)
Theorem wrong_dimension_not_rejected (b : Board) :
  ¬ is_board b →
  (∀ d, ¬ fails_with "InvalidBoard" (resolve d b))
  ∧ (b = [] → transpose b = Throw TypeError ∧ moveUp b = Throw TypeError
              ∧ moveDown b = Throw TypeError ∧ hasMoves b = Throw TypeError)
  ∧ (safe_board b →
     defined_move b (moveLeft b) ∧ defined_move b (moveRight b)
     ∧ ∀ m, moveLeft b = Ok m ∨ moveRight b = Ok m →
            safe_board (newBoard m) ∧ 0 ≤ scoreDelta m ≤ board_sum b).
Proof.
  intros _. split; [|split].
  - intros d (e & He & Hname). destruct e. discriminate.
  - intros ->. repeat split.
  - intros [Hcells Hmax].
    assert (Hleft : defined_move b (moveLeft b)).
    { destruct (moveLeft_ok b) as (m & Hm & Hred). exists m.
      split; [exact Hm|]. split; [exact (reduced_length _ _ Hred)|].
      split; [|exact (reduced_sum _ _ Hred)].
      eapply Forall_impl; [exact (reduced_compressed _ _ Hred)|]. simpl. tauto. }
    assert (Hright : defined_move b (moveRight b)).
    { destruct (moveRight_ok b) as (m & Hm & Hred). exists m.
      split; [exact Hm|]. split.
      { rewrite <- (reverse_length (newBoard m)), (reduced_length _ _ Hred).
        apply reverse_length. }
      split.
      + pose proof (reduced_compressed _ _ Hred) as Hrows.
        apply Forall_forall. intros row Hrow.
        rewrite <- (length_rev row).
        assert (Hin : rev row ∈ reverse (newBoard m)).
        { unfold reverse. apply list_elem_of_In, in_map, list_elem_of_In, Hrow. }
        exact (proj2 (proj2 (proj1 (Forall_forall _ _) Hrows _ Hin))).
      + rewrite <- (reverse_sum (newBoard m)), (reduced_sum _ _ Hred).
        apply reverse_sum. }
    split; [exact Hleft|]. split; [exact Hright|].
    intros m [Hm | Hm].
    + destruct Hleft as (m' & Hm' & _ & _ & Hsum). rewrite Hm in Hm'.
      injection Hm' as <-. split; [split|split].
      * exact (moveLeft_all_cells _ (Z.le_refl 0) nonneg_double b m Hm Hcells).
      * lia.
      * exact (moveLeft_delta b m Hm Hcells).
      * exact (moveLeft_budget b m Hm Hcells).
    + destruct Hright as (m' & Hm' & _ & _ & Hsum). rewrite Hm in Hm'.
      injection Hm' as <-. split; [split|split].
      * exact (moveRight_all_cells _ (Z.le_refl 0) nonneg_double b m Hm Hcells).
      * lia.
      * exact (moveRight_delta b m Hm Hcells).
      * exact (moveRight_budget b m Hm Hcells).
Qed.

(** The board of two rows of two cells. *)
Lemma wrong_dimension_not_rejected_witness :
  ¬ is_board small_board ∧ safe_board small_board
  ∧ defined_move small_board (moveLeft small_board)
  ∧ defined_move small_board (moveRight small_board)
  ∧ ∀ m, moveLeft small_board = Ok m ∨ moveRight small_board = Ok m →
         safe_board (newBoard m) ∧ 0 ≤ scoreDelta m ≤ board_sum small_board.
Proof.
  split; [exact small_board_not_board|]. split; [exact small_board_safe|].
  exact (proj2 (proj2 (wrong_dimension_not_rejected small_board small_board_not_board))
           small_board_safe).
Defined.

(** C9: [transpose] and [reverse] are self-inverse on the boards of the
    game: transposing twice and reversing twice give the board back. *)
Theorem adapters_involutive (b : Board) :
  is_board b →
  (transpose b ≫= transpose) = Ok b ∧ reverse (reverse b) = b.
Proof.
  intros Hb. split; [|apply reverse_involutive].
  destruct (transpose_board b Hb) as (t & Ht & _ & Hback & _).
  rewrite Ht. exact Hback.
Qed.

(** The adapters on [two_twos]. *)
Lemma adapters_involutive_witness :
  is_board two_twos
  ∧ (transpose two_twos ≫= transpose) = Ok two_twos
  ∧ reverse (reverse two_twos) = two_twos.
Proof.
  split; [exact two_twos_is_board|].
  exact (adapters_involutive two_twos two_twos_is_board).
Defined.

(** C10: on a board of the game, every row of the board returned by the
    left move is packed (no zero to the left of a non-zero entry) and is a
    fixed point of [compress]; the right, up and down moves return boards
    packed against the right, top and bottom edge. *)
Theorem moves_pack_tiles (b : Board) :
  is_board b →
  (∃ m, resolve "left" b = Ok m ∧ is_board (newBoard m)
        ∧ Forall (fun row => packed row ∧ compress row = row) (newBoard m))
  ∧ (∃ m, resolve "right" b = Ok m ∧ is_board (newBoard m)
          ∧ packed_right (newBoard m))
  ∧ (∃ m, resolve "up" b = Ok m ∧ is_board (newBoard m)
          ∧ packed_up (newBoard m))
  ∧ (∃ m, resolve "down" b = Ok m ∧ is_board (newBoard m)
          ∧ packed_down (newBoard m)).
Proof.
  intros Hb.
  assert (Hweak : ∀ P r, moves_to b P r →
            ∃ m, r = Ok m ∧ is_board (newBoard m) ∧ P (newBoard m)).
  { intros P r (m & Hm & Hbm & _ & HP). by exists m. }
  split; [|split; [|split]].
  - rewrite resolve_left.
    destruct (moveLeft_board b Hb) as (m & Hm & Hbm & _ & Hrows & _). by exists m.
  - rewrite resolve_right. exact (Hweak _ _ (moveRight_board b Hb)).
  - rewrite resolve_up. exact (Hweak _ _ (moveUp_board b Hb)).
  - rewrite resolve_down. exact (Hweak _ _ (moveDown_board b Hb)).
Qed.

(** The left move of [two_twos]. *)
Lemma moves_pack_tiles_witness :
  is_board two_twos
  ∧ ∃ m, resolve "left" two_twos = Ok m ∧ is_board (newBoard m)
         ∧ Forall (fun row => packed row ∧ compress row = row) (newBoard m).
Proof.
  split; [exact two_twos_is_board|].
  exact (proj1 (moves_pack_tiles two_twos two_twos_is_board)).
Defined.

(** * Further properties of the component *)

(** ** The number of tiles *)

Section Count.

Lemma row_count_cons (v : Z) (row : Row) :
  row_count (v :: row) = (occupied v + row_count row)%nat.
Proof. unfold row_count, occupied. simpl. by destruct (nonzero v). Qed.

Lemma row_count_app (xs ys : Row) :
  row_count (xs ++ ys) = (row_count xs + row_count ys)%nat.
Proof. unfold row_count. by rewrite List.filter_app, length_app. Qed.

Lemma row_count_zeros (n : nat) : row_count (replicate n 0) = 0%nat.
Proof. unfold row_count. by rewrite filter_nonzero_zeros. Qed.

Lemma row_count_compress (row : Row) : row_count (compress row) = row_count row.
Proof.
  unfold compress. rewrite row_count_app, row_count_zeros, Nat.add_0_r.
  unfold row_count. by rewrite filter_nonzero_idem.
Qed.

Lemma row_count_rev (row : Row) : row_count (rev row) = row_count row.
Proof.
  induction row as [|v row IH]; [reflexivity|]. simpl rev.
  rewrite row_count_app, !row_count_cons, IH. unfold row_count at 2. simpl. lia.
Qed.

Lemma row_count_le (row : Row) : (row_count row ≤ length row)%nat.
Proof. apply filter_nonzero_length. Qed.

Lemma row_count_full (row : Row) :
  row_count row = length row → Forall (fun v => v ≠ 0) row.
Proof.
  induction row as [|v row IH]; [constructor|]. rewrite row_count_cons. simpl length.
  pose proof (row_count_le row). unfold occupied, nonzero.
  destruct (Z.eqb_spec v 0) as [-> | Hv]; simpl; intros Heq; [lia|].
  constructor; [exact Hv | apply IH; lia].
Qed.

Lemma row_count_insert (row : Row) (i : nat) (x y : Z) :
  row !! i = Some y →
  (row_count (<[i := x]> row) + occupied y = row_count row + occupied x)%nat.
Proof.
  revert i. induction row as [|v row IH]; intros i Hi; [by destruct i|].
  destruct i as [|i]; simpl in *.
  - injection Hi as ->. rewrite !row_count_cons. lia.
  - rewrite !row_count_cons. pose proof (IH i Hi). lia.
Qed.

(** One iteration of the loop of [merge] either leaves the row and the
    score alone or removes one tile. *)
Lemma merge_step_count (i : nat) (row row' : Row) (d d' : Z) :
  merge_step i (row, d) = Ok (row', d') →
  (row' = row ∧ d' = d) ∨ S (row_count row') = row_count row.
Proof.
  unfold merge_step. destruct (row !! i) as [a|] eqn:Ha; [|discriminate].
  destruct (negb (a =? 0) && _) eqn:Htest; intros [= <- <-]; [right | by left].
  apply andb_prop in Htest as [Hnz Hnext]. apply strict_eq_Some in Hnext.
  assert (Ha2 : occupied (a * 2) = 1%nat).
  { unfold occupied, nonzero. apply negb_true_iff, Z.eqb_neq in Hnz.
    destruct (Z.eqb_spec (a * 2) 0); [lia | reflexivity]. }
  assert (Ha1 : occupied a = 1%nat) by (unfold occupied, nonzero; by rewrite Hnz).
  pose proof (row_count_insert row i (a * 2) a Ha) as H1.
  pose proof (row_count_insert (<[i := a * 2]> row) (S i) 0 a) as H2.
  rewrite list_lookup_insert_ne in H2 by lia. specialize (H2 Hnext).
  change (occupied 0) with 0%nat in H2. lia.
Qed.

Lemma forM_merge_step_count (idxs : list nat) (row row' : Row) (d d' : Z) :
  forM merge_step idxs (row, d) = Ok (row', d') →
  (row_count row' ≤ row_count row)%nat
  ∧ (row_count row' = row_count row → row' = row ∧ d' = d).
Proof.
  revert row d. induction idxs as [|i idxs IH]; intros row d; cbn [forM].
  - intros [= <- <-]. auto.
  - destruct (merge_step i (row, d)) as [[row1 d1]| |] eqn:Hstep; try discriminate.
    cbn [mbind result_bind]. intros Hloop.
    destruct (IH _ _ Hloop) as [Hle Heq].
    destruct (merge_step_count _ _ _ _ _ Hstep) as [[-> ->] | Hless]; [auto|].
    split; [lia | intros; lia].
Qed.

Lemma merge_count (row : Row) (m : MergeResult) :
  merge row = Ok m →
  (row_count (mergedRow m) ≤ row_count row)%nat
  ∧ (row_count (mergedRow m) = row_count row →
     mergedRow m = compress row ∧ rowDelta m = 0).
Proof.
  unfold merge.
  destruct (forM merge_step _ (row, 0)) as [[row' d']| |] eqn:Hloop; try discriminate.
  cbn [mbind result_bind]. intros [= <-]. cbn [mergedRow rowDelta].
  rewrite row_count_compress. destruct (forM_merge_step_count _ _ _ _ _ Hloop) as [Hle Heq].
  split; [exact Hle|]. intros Hsame. by destruct (Heq Hsame) as [-> ->].
Qed.

Lemma moveLeft_rows_count (rows moved : Board) (d d' : Z) :
  moveLeft_rows rows d = Ok (moved, d') →
  (board_count moved ≤ board_count rows)%nat
  ∧ (board_count moved = board_count rows →
     moved = List.map compress rows ∧ d' = d).
Proof.
  revert moved d. induction rows as [|row rows IH]; intros moved d; cbn [moveLeft_rows].
  - intros [= <- <-]. auto.
  - destruct (merge (compress row)) as [m| |] eqn:Hm; try discriminate.
    cbn [mbind result_bind].
    destruct (moveLeft_rows rows (d + rowDelta m)) as [[moved' d'']| |] eqn:Hrest;
      try discriminate.
    cbn [mbind result_bind]. intros [= <- <-].
    destruct (merge_count _ _ Hm) as [Hle1 Heq1]. rewrite row_count_compress in Hle1, Heq1.
    destruct (IH _ _ Hrest) as [Hle2 Heq2]. cbn [board_count foldr List.map].
    fold (board_count moved') (board_count rows).
    split; [lia|]. intros Hsame.
    destruct Heq1 as [-> Hd]; [lia|]. destruct Heq2 as [-> ->]; [lia|].
    rewrite compress_idem. split; [reflexivity | lia].
Qed.

Lemma moveLeft_count (b : Board) (m : MoveResult) :
  moveLeft b = Ok m →
  (board_count (newBoard m) ≤ board_count b)%nat
  ∧ (board_count (newBoard m) = board_count b →
     newBoard m = List.map compress b ∧ scoreDelta m = 0).
Proof.
  unfold moveLeft.
  destruct (moveLeft_rows b 0) as [[moved d]| |] eqn:Hrows; try discriminate.
  cbn [mbind result_bind]. intros [= <-]. exact (moveLeft_rows_count _ _ _ _ Hrows).
Qed.

Lemma reverse_count (b : Board) : board_count (reverse b) = board_count b.
Proof.
  induction b as [|row b IH]; [reflexivity|]. cbn [reverse List.map board_count foldr].
  fold (reverse b) (board_count (reverse b)) (board_count b).
  by rewrite row_count_rev, IH.
Qed.

Lemma transpose_count (b t : Board) :
  is_board b → transpose b = Ok t → board_count t = board_count b.
Proof.
  intros Hb. name_cells Hb. rewrite transpose4. intros [= <-].
  unfold board_count. cbn [foldr]. rewrite !row_count_cons.
  change (row_count []) with 0%nat. lia.
Qed.

Lemma board_count_le (b : Board) : is_board b → (board_count b ≤ 16)%nat.
Proof.
  intros Hb. apply is_board_inv in Hb as (r0 & r1 & r2 & r3 & -> & H0 & H1 & H2 & H3).
  unfold board_count. cbn [foldr].
  pose proof (row_count_le r0). pose proof (row_count_le r1).
  pose proof (row_count_le r2). pose proof (row_count_le r3).
  unfold BOARD_SIZE in *. lia.
Qed.

(** A board of the game with sixteen tiles is left alone by [compress]. *)
Lemma full_board_compress (b : Board) :
  is_board b → board_count b = 16%nat → List.map compress b = b.
Proof.
  intros Hb. apply is_board_inv in Hb as (r0 & r1 & r2 & r3 & -> & H0 & H1 & H2 & H3).
  unfold board_count. cbn [foldr List.map].
  pose proof (row_count_le r0). pose proof (row_count_le r1).
  pose proof (row_count_le r2). pose proof (row_count_le r3).
  unfold BOARD_SIZE in *. intros Hfull.
  rewrite !compress_full; [reflexivity | | | | | | | |];
    first [apply row_count_full; lia | unfold BOARD_SIZE; lia].
Qed.

Lemma row_count_nonzero (row : Row) :
  Forall (fun v => v ≠ 0) row → row_count row = length row.
Proof.
  induction 1 as [|v row Hv _ IH]; [reflexivity|]. rewrite row_count_cons, IH.
  unfold occupied, nonzero. apply Z.eqb_neq in Hv. by rewrite Hv.
Qed.

Lemma no_zero_tiles (b : Board) :
  (∀ r c, tile b r c ≠ Some 0) → all_cells (fun v => v ≠ 0) b.
Proof.
  intros Hfull. apply Forall_lookup. intros r row Hrow.
  apply Forall_lookup. intros c v Hv ->. apply (Hfull r c). unfold tile. by rewrite Hrow.
Qed.

Lemma full_board_count (b : Board) :
  is_board b → (∀ r c, tile b r c ≠ Some 0) → board_count b = 16%nat.
Proof.
  intros Hb Hfull. apply no_zero_tiles in Hfull.
  apply is_board_inv in Hb as (r0 & r1 & r2 & r3 & -> & H0 & H1 & H2 & H3).
  repeat (apply Forall_cons in Hfull as [? Hfull]).
  unfold board_count. cbn [foldr]. rewrite !row_count_nonzero by assumption.
  unfold BOARD_SIZE in *. lia.
Qed.

End Count.

(** ** Every move is a left move between two adapters *)

Section ViaLeft.

Lemma moveLeft_is_board (x : Board) (m : MoveResult) :
  is_board x → moveLeft x = Ok m → is_board (newBoard m).
Proof.
  intros Hx Hm. destruct (moveLeft_ok x) as (m' & Hm' & Hred).
  rewrite Hm in Hm'. injection Hm' as <-. exact (reduced_is_board _ _ Hx Hred).
Qed.

Lemma MoveResult_eta (m : MoveResult) : mkMove (newBoard m) (scoreDelta m) = m.
Proof. by destruct m. Qed.

(** On a board of the game, the move in direction [d] is the left move of
    a board [x] with the tiles of [b], whose result [y] has the tiles of
    the new board; when the left move leaves [x] alone the move leaves [b]
    alone. *)
Lemma resolve_via_left (d : string) (b : Board) (m : MoveResult) :
  d ∈ Directions → is_board b → resolve d b = Ok m →
  ∃ x y, is_board x ∧ moveLeft x = Ok (mkMove y (scoreDelta m))
         ∧ board_count x = board_count b
         ∧ board_count y = board_count (newBoard m)
         ∧ (y = x → newBoard m = b).
Proof.
  intros Hd Hb. destruct (transpose_board b Hb) as (t & Ht & Hbt & Hback & _ & _).
  destruct (Directions_inv d Hd) as [-> | [-> | [-> | ->]]].
  - rewrite resolve_up. unfold moveUp. rewrite Ht. cbn [mbind result_bind].
    destruct (moveLeft t) as [m'| |] eqn:Hm; try discriminate. cbn [mbind result_bind].
    destruct (transpose (newBoard m')) as [t'| |] eqn:Ht'; try discriminate.
    cbn [mbind result_bind]. intros [= <-]. cbn [newBoard scoreDelta].
    exists t, (newBoard m'). rewrite MoveResult_eta.
    split; [exact Hbt|]. split; [exact Hm|].
    split; [exact (transpose_count _ _ Hb Ht)|].
    split; [symmetry; exact (transpose_count _ _ (moveLeft_is_board _ _ Hbt Hm) Ht')|].
    intros Hsame. rewrite Hsame in Ht'. congruence.
  - rewrite resolve_down. unfold moveDown, moveRight. rewrite Ht. cbn [mbind result_bind].
    destruct (moveLeft (reverse t)) as [m'| |] eqn:Hm; try discriminate.
    cbn [mbind result_bind newBoard scoreDelta].
    destruct (transpose (reverse (newBoard m'))) as [t'| |] eqn:Ht'; try discriminate.
    cbn [mbind result_bind]. intros [= <-]. cbn [newBoard scoreDelta].
    exists (reverse t), (newBoard m'). rewrite MoveResult_eta.
    pose proof (reverse_is_board _ Hbt) as Hbr.
    split; [exact Hbr|]. split; [exact Hm|].
    split; [rewrite reverse_count; exact (transpose_count _ _ Hb Ht)|].
    split.
    + rewrite <- (reverse_count (newBoard m')). symmetry.
      apply (transpose_count _ _ (reverse_is_board _ (moveLeft_is_board _ _ Hbr Hm)) Ht').
    + intros Hsame. rewrite Hsame, reverse_involutive in Ht'. congruence.
  - rewrite resolve_left. intros Hm. exists b, (newBoard m). rewrite MoveResult_eta. auto.
  - rewrite resolve_right. unfold moveRight.
    destruct (moveLeft (reverse b)) as [m'| |] eqn:Hm; try discriminate.
    cbn [mbind result_bind]. intros [= <-]. cbn [newBoard scoreDelta].
    exists (reverse b), (newBoard m'). rewrite MoveResult_eta.
    split; [by apply reverse_is_board|]. split; [exact Hm|].
    split; [apply reverse_count|]. split; [symmetry; apply reverse_count|].
    intros ->. apply reverse_involutive.
Qed.

(** On a board of the game each of the four moves returns a board of the
    game. *)
Lemma resolve_board (d : string) (b : Board) :
  d ∈ Directions → is_board b →
  ∃ m, resolve d b = Ok m ∧ is_board (newBoard m)
       ∧ board_sum (newBoard m) = board_sum b.
Proof.
  intros Hd Hb.
  assert (Hweak : ∀ P r, moves_to b P r →
            ∃ m, r = Ok m ∧ is_board (newBoard m)
                 ∧ board_sum (newBoard m) = board_sum b).
  { intros P r (m & Hm & Hbm & Hsum & _). by exists m. }
  destruct (Directions_inv d Hd) as [-> | [-> | [-> | ->]]].
  - rewrite resolve_up. exact (Hweak _ _ (moveUp_board b Hb)).
  - rewrite resolve_down. exact (Hweak _ _ (moveDown_board b Hb)).
  - rewrite resolve_left. exact (Hweak _ _ (moveLeft_board b Hb)).
  - rewrite resolve_right. exact (Hweak _ _ (moveRight_board b Hb)).
Qed.

Lemma resolve_count (d : string) (b : Board) (m : MoveResult) :
  d ∈ Directions → is_board b → resolve d b = Ok m →
  (board_count (newBoard m) ≤ board_count b)%nat
  ∧ (board_count (newBoard m) = board_count b → scoreDelta m = 0)
  ∧ (board_count (newBoard m) = 16%nat → newBoard m = b).
Proof.
  intros Hd Hb Hm.
  destruct (resolve_via_left d b m Hd Hb Hm) as (x & y & Hx & Hleft & Hcx & Hcy & Hsame).
  destruct (moveLeft_count _ _ Hleft) as [Hle Heq]. cbn [newBoard scoreDelta] in Hle, Heq.
  split; [lia|]. split.
  - intros Hc. apply Heq. lia.
  - intros Hfull. pose proof (board_count_le x Hx).
    destruct Heq as [Hy _]; [lia|]. apply Hsame. rewrite Hy.
    apply full_board_compress; [exact Hx | lia].
Qed.

(** After a move that changed the board some cell is empty. *)
Lemma moved_has_empty (d : string) (b : Board) (m : MoveResult) :
  d ∈ Directions → is_board b → resolve d b = Ok m → newBoard m ≠ b →
  emptyCells (newBoard m) ≠ [].
Proof.
  intros Hd Hb Hm Hchanged Hnil.
  destruct (resolve_board d b Hd Hb) as (m' & Hm' & Hbm & _).
  rewrite Hm in Hm'. injection Hm' as <-.
  apply Hchanged. apply (resolve_count d b m Hd Hb Hm).
  apply full_board_count; [exact Hbm|]. intros r c Hzero.
  apply elem_of_emptyCells in Hzero. rewrite Hnil in Hzero. by apply elem_of_nil in Hzero.
Qed.

End ViaLeft.

(** ** The spawner on boards *)

Section SpawnBoard.

Lemma board_sum_insert (b : Board) (r : nat) (row row' : Row) :
  b !! r = Some row →
  board_sum (<[r := row']> b) = board_sum b - row_sum row + row_sum row'.
Proof.
  revert r. induction b as [|x b IH]; intros r Hr; [by destruct r|].
  destruct r as [|r]; simpl in *.
  - injection Hr as ->. lia.
  - rewrite (IH r Hr). lia.
Qed.

Lemma board_count_cons (row : Row) (b : Board) :
  board_count (row :: b) = (row_count row + board_count b)%nat.
Proof. reflexivity. Qed.

Lemma board_count_insert (b : Board) (r : nat) (row row' : Row) :
  b !! r = Some row →
  (board_count (<[r := row']> b) + row_count row
   = board_count b + row_count row')%nat.
Proof.
  revert r. induction b as [|x b IH]; intros r Hr; [by destruct r|].
  destruct r as [|r].
  - injection Hr as ->. change (<[0%nat := row']> (row :: b)) with (row' :: b).
    rewrite !board_count_cons. lia.
  - change (<[S r := row']> (x :: b)) with (x :: <[r := row']> b).
    rewrite !board_count_cons. pose proof (IH r Hr). lia.
Qed.

Lemma is_board_insert (b : Board) (r : nat) (row' : Row) :
  is_board b → length row' = BOARD_SIZE → is_board (<[r := row']> b).
Proof.
  intros [Hlen Hrows] Hrow'. split; [by rewrite length_insert|].
  by apply Forall_insert.
Qed.

Lemma all_cells_insert (P : Z → Prop) (b : Board) (r c : nat) (row : Row) (v : Z) :
  b !! r = Some row → P v → all_cells P b → all_cells P (<[r := <[c := v]> row]> b).
Proof.
  intros Hrow Hv Hall. apply Forall_insert; [exact Hall|].
  apply Forall_insert; [|exact Hv]. exact (proj1 (Forall_lookup _ _) Hall r row Hrow).
Qed.

Lemma not_full_has_empty (b : Board) :
  is_board b → (board_count b < 16)%nat → emptyCells b ≠ [].
Proof.
  intros Hb Hcount Hnil.
  assert (Hfull : board_count b = 16%nat); [|lia].
  apply full_board_count; [exact Hb|]. intros r c Hzero.
  apply elem_of_emptyCells in Hzero. rewrite Hnil in Hzero. by apply elem_of_nil in Hzero.
Qed.

Section Draw.

Variables u1 u2 : Q.
Hypothesis u1_lower : (0 <= u1)%Q.
Hypothesis u1_upper : (u1 < 1)%Q.

(** What one spawn does to a board with an empty cell: one more tile, of
    value 2 or 4, added to the sum; the shape and every predicate that
    holds of 2, of 4 and of the cells are kept. *)
Lemma spawn_board (b : Board) :
  emptyCells b ≠ [] →
  ∃ nb v, addRandomTile u1 u2 b = Ok nb ∧ (v = 2 ∨ v = 4)
          ∧ board_sum nb = board_sum b + v
          ∧ board_count nb = S (board_count b)
          ∧ (is_board b → is_board nb)
          ∧ (∀ P : Z → Prop, P 2 → P 4 → all_cells P b → all_cells P nb).
Proof.
  intros Hcells.
  destruct (addRandomTile_spawns u1 u2 u1_lower u1_upper b Hcells)
    as (r & c & row & v & Hrow & Hcell & Hv & Hspawn).
  exists (<[r := <[c := v]> row]> b), v.
  split; [exact Hspawn|]. split; [exact Hv|].
  split. { rewrite (board_sum_insert b r row _ Hrow), (row_sum_insert row c v 0 Hcell). lia. }
  split.
  { pose proof (board_count_insert b r row (<[c := v]> row) Hrow) as Hb.
    pose proof (row_count_insert row c v 0 Hcell) as Hr.
    assert (Hocc : occupied v = 1%nat) by (by destruct Hv as [-> | ->]).
    change (occupied 0) with 0%nat in Hr. lia. }
  split.
  { intros Hb. apply is_board_insert; [exact Hb|]. rewrite length_insert.
    destruct Hb as [_ Hrows]. exact (proj1 (Forall_lookup _ _) Hrows r row Hrow). }
  intros P P2 P4 Hall. apply (all_cells_insert P b r c row v Hrow); [|exact Hall].
  by destruct Hv as [-> | ->].
Qed.

End Draw.

End SpawnBoard.

(** ** The move handler and the seeding of the board *)

Section Handler.

Lemma hasMoves_board (b : Board) : is_board b → ∃ found, hasMoves b = Ok found.
Proof. intros Hb. rewrite (hasMoves_refines b Hb). by eexists. Qed.

(** The three ways a call of [handleMove] runs on a board of the game, for
    one of the four directions and a draw in range. *)
Lemma handleMove_cases (u1 u2 : Q) (st : GameState) (d : string) :
  (0 <= u1)%Q → (u1 < 1)%Q → d ∈ Directions → is_board (board st) →
  (gameOver st = true ∧ handleMove u1 u2 st d = (st, Ok tt))
  ∨ (gameOver st = false
     ∧ ∃ m, resolve d (board st) = Ok m
       ∧ ((newBoard m = board st ∧ handleMove u1 u2 st d = (st, Ok tt))
          ∨ (newBoard m ≠ board st
             ∧ ∃ nb v found,
                 addRandomTile u1 u2 (newBoard m) = Ok nb
                 ∧ hasMoves nb = Ok found
                 ∧ handleMove u1 u2 st d
                   = (mkState nb (score st + scoreDelta m) (negb found), Ok tt)
                 ∧ (v = 2 ∨ v = 4)
                 ∧ is_board nb
                 ∧ board_sum nb = board_sum (board st) + v
                 ∧ board_count nb = S (board_count (newBoard m))
                 ∧ (∀ P : Z → Prop, P 2 → P 4 →
                      all_cells P (newBoard m) → all_cells P nb)))).
Proof.
  intros Hlo Hhi Hd Hb. unfold handleMove.
  destruct (gameOver st); [by left | right]. split; [reflexivity|].
  destruct (resolve_board d (board st) Hd Hb) as (m & Hm & Hbm & Hsum).
  exists m. split; [exact Hm|]. rewrite Hm.
  destruct (decide (newBoard m = board st)) as [Hsame | Hchanged].
  - left. split; [exact Hsame|]. by rewrite bool_decide_eq_true_2.
  - right. split; [exact Hchanged|]. rewrite bool_decide_eq_false_2 by exact Hchanged.
    cbn [negb].
    destruct (spawn_board u1 u2 Hlo Hhi (newBoard m)
                (moved_has_empty d _ m Hd Hb Hm Hchanged))
      as (nb & v & Hspawn & Hv & Hsum' & Hcount & Hshape & Hcells).
    destruct (hasMoves_board nb (Hshape Hbm)) as [found Hfound].
    exists nb, v, found. rewrite Hspawn, Hfound.
    split; [reflexivity|]. split; [reflexivity|].
    split; [by destruct found|]. split; [exact Hv|]. split; [exact (Hshape Hbm)|].
    split; [lia|]. split; [exact Hcount | exact Hcells].
Qed.

End Handler.

Lemma checkered_tiles : all_cells (fun v => is_tile v = true) checkered.
Proof. repeat constructor. Defined.

Lemma two_twos_tiles : all_cells (fun v => is_tile v = true) two_twos.
Proof. repeat constructor. Defined.


Lemma half_lower : (0 <= 1 # 2)%Q.
Proof. discriminate. Defined.

Lemma half_upper : (1 # 2 < 1)%Q.
Proof. reflexivity. Defined.

(** X1: on a board of the game whose cells are tile values (0 or a power
    of two from 2 on) and whose sum is a safe integer, each of the four
    moves returns a board of the game whose cells are tile values and
    whose sum is a safe integer. *)
Theorem moves_keep_tiles (d : string) (b : Board) :
  d ∈ Directions → is_board b → all_cells (fun v => is_tile v = true) b →
  board_sum b ≤ MAX_SAFE_INTEGER →
  ∃ m, resolve d b = Ok m ∧ is_board (newBoard m)
       ∧ all_cells (fun v => is_tile v = true) (newBoard m)
       ∧ board_sum (newBoard m) ≤ MAX_SAFE_INTEGER.
Proof.
  intros Hd Hb Htiles Hmax.
  destruct (resolve_safe d b Hd Hb (conj (tiles_nonneg b Htiles) Hmax))
    as (m & Hm & Hbm & Hsum & _).
  exists m. split; [exact Hm|]. split; [exact Hbm|]. split; [|lia].
  exact (resolve_all_cells _ is_tile_zero is_tile_double d b m Hm Htiles).
Qed.

(** The left move of [two_twos]. *)
Lemma moves_keep_tiles_witness :
  "left" ∈ Directions ∧ is_board two_twos
  ∧ all_cells (fun v => is_tile v = true) two_twos
  ∧ board_sum two_twos ≤ MAX_SAFE_INTEGER
  ∧ ∃ m, resolve "left" two_twos = Ok m ∧ is_board (newBoard m)
         ∧ all_cells (fun v => is_tile v = true) (newBoard m)
         ∧ board_sum (newBoard m) ≤ MAX_SAFE_INTEGER.
Proof.
  split; [exact left_in_Directions|]. split; [exact two_twos_is_board|].
  split; [exact two_twos_tiles|]. split; [exact (proj2 two_twos_safe)|].
  exact (moves_keep_tiles "left" two_twos left_in_Directions two_twos_is_board
           two_twos_tiles (proj2 two_twos_safe)).
Defined.



(** X3: on a board of the game a move never adds a tile; when it keeps
    the number of tiles, and so when it leaves the board unchanged, its
    score is 0. *)
Theorem move_tile_count (d : string) (b : Board) :
  d ∈ Directions → is_board b →
  ∃ m, resolve d b = Ok m
       ∧ (board_count (newBoard m) ≤ board_count b)%nat
       ∧ (board_count (newBoard m) = board_count b → scoreDelta m = 0)
       ∧ (newBoard m = b → scoreDelta m = 0).
Proof.
  intros Hd Hb. destruct (resolve_board d b Hd Hb) as (m & Hm & _).
  destruct (resolve_count d b m Hd Hb Hm) as (Hle & Hzero & _).
  exists m. split; [exact Hm|]. split; [exact Hle|]. split; [exact Hzero|].
  intros Hsame. apply Hzero. by rewrite Hsame.
Qed.

(** The left move of [two_twos]. *)
Lemma move_tile_count_witness :
  "left" ∈ Directions ∧ is_board two_twos
  ∧ ∃ m, resolve "left" two_twos = Ok m
         ∧ (board_count (newBoard m) ≤ board_count two_twos)%nat
         ∧ (board_count (newBoard m) = board_count two_twos → scoreDelta m = 0)
         ∧ (newBoard m = two_twos → scoreDelta m = 0).
Proof.
  split; [exact left_in_Directions|]. split; [exact two_twos_is_board|].
  exact (move_tile_count "left" two_twos left_in_Directions two_twos_is_board).
Defined.

(** X4: on a board of the game, a move that changes the board leaves an
    empty cell, so the spawn that follows an accepted move always finds
    room. *)
Theorem accepted_move_has_room (d : string) (b : Board) (m : MoveResult) :
  d ∈ Directions → is_board b → resolve d b = Ok m → newBoard m ≠ b →
  ∃ r c, tile (newBoard m) r c = Some 0.
Proof.
  intros Hd Hb Hm Hchanged.
  pose proof (moved_has_empty d b m Hd Hb Hm Hchanged) as Hcells.
  destruct (emptyCells (newBoard m)) as [|[r c] cells] eqn:Hlist; [done|].
  exists r, c. apply elem_of_emptyCells. rewrite Hlist. apply list_elem_of_here.
Qed.

Lemma two_twos_changes :
  newBoard (mkMove [[4; 0; 0; 0]; [0; 0; 0; 0]; [0; 0; 0; 0]; [0; 0; 0; 0]] 4)
  ≠ two_twos.
Proof. discriminate. Defined.

(** The left move of [two_twos]. *)
Lemma accepted_move_has_room_witness :
  "left" ∈ Directions ∧ is_board two_twos
  ∧ resolve "left" two_twos
    = Ok (mkMove [[4; 0; 0; 0]; [0; 0; 0; 0]; [0; 0; 0; 0]; [0; 0; 0; 0]] 4)
  ∧ [[4; 0; 0; 0]; [0; 0; 0; 0]; [0; 0; 0; 0]; [0; 0; 0; 0]] ≠ two_twos
  ∧ ∃ r c, tile [[4; 0; 0; 0]; [0; 0; 0; 0]; [0; 0; 0; 0]; [0; 0; 0; 0]] r c = Some 0.
Proof.
  split; [exact left_in_Directions|]. split; [exact two_twos_is_board|].
  split; [reflexivity|]. split; [exact two_twos_changes|].
  exact (accepted_move_has_room "left" two_twos _ left_in_Directions
           two_twos_is_board eq_refl two_twos_changes).
Defined.

(** X5: on a board of the game with an empty cell, and for a draw in
    range, [addRandomTile] returns a board of the game with one more tile
    and with the sum of the tiles increased by the new tile, 2 or 4. *)
Theorem spawn_adds_tile (u1 u2 : Q) (b : Board) :
  (0 <= u1)%Q → (u1 < 1)%Q → is_board b → (∃ r c, tile b r c = Some 0) →
  ∃ nb v, addRandomTile u1 u2 b = Ok nb ∧ is_board nb ∧ (v = 2 ∨ v = 4)
          ∧ board_sum nb = board_sum b + v
          ∧ board_count nb = S (board_count b).
Proof.
  intros Hlo Hhi Hb (r & c & Hzero).
  destruct (spawn_board u1 u2 Hlo Hhi b)
    as (nb & v & Hspawn & Hv & Hsum & Hcount & Hshape & _).
  { intros Hnil. apply elem_of_emptyCells in Hzero. rewrite Hnil in Hzero.
    by apply elem_of_nil in Hzero. }
  exists nb, v. auto.
Qed.

(** Both draws equal to one half, on [two_twos]. *)
Lemma spawn_adds_tile_witness :
  (0 <= 1 # 2)%Q ∧ (1 # 2 < 1)%Q ∧ is_board two_twos
  ∧ (∃ r c, tile two_twos r c = Some 0)
  ∧ ∃ nb v, addRandomTile (1 # 2) (1 # 2) two_twos = Ok nb ∧ is_board nb
            ∧ (v = 2 ∨ v = 4)
            ∧ board_sum nb = board_sum two_twos + v
            ∧ board_count nb = S (board_count two_twos).
Proof.
  assert (Hzero : ∃ r c, tile two_twos r c = Some 0)
    by (exists 0%nat, 2%nat; reflexivity).
  split; [exact half_lower|]. split; [exact half_upper|].
  split; [exact two_twos_is_board|]. split; [exact Hzero|].
  exact (spawn_adds_tile (1 # 2) (1 # 2) two_twos half_lower half_upper
           two_twos_is_board Hzero).
Defined.

Lemma playing_valid : valid_state playing.
Proof.
  split; [exact two_twos_is_board|]. split; [exact two_twos_tiles | discriminate].
Defined.

(** One call of [handleMove] from a state of the game. *)
Lemma handleMove_step (u1 u2 : Q) (st : GameState) (d : string) :
  (0 <= u1)%Q → (u1 < 1)%Q → d ∈ Directions → valid_state st →
  ∃ st', handleMove u1 u2 st d = (st', Ok tt) ∧ valid_state st'
         ∧ score st ≤ score st' ≤ score st + board_sum (board st)
         ∧ board_sum (board st) ≤ board_sum (board st') ≤ board_sum (board st) + 4
         ∧ (gameOver st = true → st' = st)
         ∧ (∀ m, resolve d (board st) = Ok m → newBoard m = board st → st' = st).
Proof.
  intros Hlo Hhi Hd (Hb & Htiles & Hscore).
  pose proof (board_sum_nonneg _ (tiles_nonneg _ Htiles)) as Hpos.
  destruct (handleMove_cases u1 u2 st d Hlo Hhi Hd Hb)
    as [[Hover Hcall] | (Hplay & m & Hm & [[Hsame Hcall] | (Hchanged & Hcall)])].
  - exists st. split; [exact Hcall|].
    split; [exact (conj Hb (conj Htiles Hscore))|]. split; [lia|]. split; [lia | done].
  - exists st. split; [exact Hcall|].
    split; [exact (conj Hb (conj Htiles Hscore))|]. split; [lia|]. split; [lia | done].
  - destruct Hcall as (nb & v & found & _ & _ & Hcall & Hv & Hbn & Hsum & _ & Hcells).
    pose proof (resolve_delta d _ m Hm (tiles_nonneg _ Htiles)) as Hdelta.
    pose proof (resolve_budget d _ m Hd Hb Hm (tiles_nonneg _ Htiles)) as Hbudget.
    pose proof (resolve_all_cells _ is_tile_zero is_tile_double d _ m Hm Htiles) as Hmoved.
    eexists. split; [exact Hcall|]. cbn [score board]. split.
    + split; [exact Hbn|]. split; [|cbn [score]; lia].
      by apply (Hcells (fun v => is_tile v = true)).
    + split; [cbn [score]; lia|]. split; [destruct Hv; lia|].
      split; [rewrite Hplay; discriminate|].
      intros m' Hm' Hsame. congruence.
Qed.

(** X6: [handleMove] keeps the states of the game.  From a state with a
    board of the game, tile values in its cells, and a score that is not
    negative and is a safe integer still when the sum of the cells is
    added, for one of the four directions and a draw in range, the call
    returns without exception in a state with a board of the game of tile
    values again, whose sum is at most 4 more; the score does not decrease
    and stays a safe integer, growing by the sum of the cells at most; a
    state with [gameOver] set, and a state whose board the move does not
    change, are left as they are. *)
Theorem handleMove_keeps_valid_state (u1 u2 : Q) (st : GameState) (d : string) :
  (0 <= u1)%Q → (u1 < 1)%Q → d ∈ Directions → valid_state st →
  score st + board_sum (board st) ≤ MAX_SAFE_INTEGER →
  ∃ st', handleMove u1 u2 st d = (st', Ok tt) ∧ valid_state st'
         ∧ board_sum (board st') ≤ board_sum (board st) + 4
         ∧ score st ≤ score st' ≤ score st + board_sum (board st)
         ∧ score st' ≤ MAX_SAFE_INTEGER
         ∧ (gameOver st = true → st' = st)
         ∧ (∀ m, resolve d (board st) = Ok m → newBoard m = board st → st' = st).
Proof.
  intros Hlo Hhi Hd Hvalid Hmax.
  destruct (handleMove_step u1 u2 st d Hlo Hhi Hd Hvalid)
    as (st' & Hcall & Hvalid' & Hscore & [_ Hsum] & Hover & Hsame).
  exists st'. split; [exact Hcall|]. split; [exact Hvalid'|].
  split; [exact Hsum|]. split; [exact Hscore|]. split; [lia|]. by split.
Qed.

(** The left move from a state holding [two_twos]. *)
Lemma handleMove_keeps_valid_state_witness :
  (0 <= 1 # 2)%Q ∧ (1 # 2 < 1)%Q ∧ "left" ∈ Directions ∧ valid_state playing
  ∧ score playing + board_sum (board playing) ≤ MAX_SAFE_INTEGER
  ∧ ∃ st', handleMove (1 # 2) (1 # 2) playing "left" = (st', Ok tt)
           ∧ valid_state st'
           ∧ board_sum (board st') ≤ board_sum (board playing) + 4
           ∧ score playing ≤ score st' ≤ score playing + board_sum (board playing)
           ∧ score st' ≤ MAX_SAFE_INTEGER
           ∧ (gameOver playing = true → st' = playing)
           ∧ (∀ m, resolve "left" (board playing) = Ok m →
                   newBoard m = board playing → st' = playing).
Proof.
  split; [exact half_lower|]. split; [exact half_upper|].
  assert (Hmax : score playing + board_sum (board playing) ≤ MAX_SAFE_INTEGER)
    by discriminate.
  split; [exact left_in_Directions|]. split; [exact playing_valid|].
  split; [exact Hmax|].
  exact (handleMove_keeps_valid_state (1 # 2) (1 # 2) playing "left"
           half_lower half_upper left_in_Directions playing_valid Hmax).
Defined.

(** X7: an accepted move.  While the game is running, on a board of the
    game in the range of exact arithmetic, with a score that is not
    negative and stays a safe integer when the sum of the cells is added,
    when the move changes the board [handleMove] installs the moved board
    with exactly one spawned tile, 2 or 4: the sum of the tiles grows by
    that tile, the score by the score of the move, which keeps it a safe
    integer, and [gameOver] becomes the negation of [hasMoves] on the new
    board. *)
Theorem handleMove_accepted (u1 u2 : Q) (st : GameState) (d : string) (m : MoveResult) :
  (0 <= u1)%Q → (u1 < 1)%Q → d ∈ Directions → is_board (board st) →
  safe_board (board st) → 0 ≤ score st →
  score st + board_sum (board st) ≤ MAX_SAFE_INTEGER →
  gameOver st = false → resolve d (board st) = Ok m → newBoard m ≠ board st →
  ∃ nb v found,
    handleMove u1 u2 st d
    = (mkState nb (score st + scoreDelta m) (negb found), Ok tt)
    ∧ 0 ≤ score st + scoreDelta m ≤ MAX_SAFE_INTEGER
    ∧ hasMoves nb = Ok found ∧ is_board nb ∧ (v = 2 ∨ v = 4)
    ∧ board_sum nb = board_sum (board st) + v
    ∧ board_count nb = S (board_count (newBoard m)).
Proof.
  intros Hlo Hhi Hd Hb [Hcells Hmax] Hscore Hroom Hplay Hm Hchanged.
  destruct (handleMove_cases u1 u2 st d Hlo Hhi Hd Hb)
    as [[Hover _] | (_ & m' & Hm' & Hcases)]; [congruence|].
  rewrite Hm in Hm'. injection Hm' as <-.
  destruct Hcases as [[Hsame _] | (_ & nb & v & found & _ & Hfound & Hcall & Hv & Hbn
                                     & Hsum & Hcount & _)]; [contradiction|].
  pose proof (resolve_delta d _ m Hm Hcells) as Hd0.
  pose proof (resolve_budget d _ m Hd Hb Hm Hcells) as Hd1.
  exists nb, v, found. split; [exact Hcall|]. split; [lia|]. auto 10.
Qed.

(** The left move from a state holding [two_twos]. *)
Lemma handleMove_accepted_witness :
  (0 <= 1 # 2)%Q ∧ (1 # 2 < 1)%Q ∧ "left" ∈ Directions ∧ is_board (board playing)
  ∧ safe_board (board playing) ∧ 0 ≤ score playing
  ∧ score playing + board_sum (board playing) ≤ MAX_SAFE_INTEGER
  ∧ [[4; 0; 0; 0]; [0; 0; 0; 0]; [0; 0; 0; 0]; [0; 0; 0; 0]] ≠ board playing
  ∧ gameOver playing = false
  ∧ resolve "left" (board playing)
    = Ok (mkMove [[4; 0; 0; 0]; [0; 0; 0; 0]; [0; 0; 0; 0]; [0; 0; 0; 0]] 4)
  ∧ ∃ nb v found,
      handleMove (1 # 2) (1 # 2) playing "left"
      = (mkState nb (score playing + 4) (negb found), Ok tt)
      ∧ 0 ≤ score playing + 4 ≤ MAX_SAFE_INTEGER
      ∧ hasMoves nb = Ok found ∧ is_board nb ∧ (v = 2 ∨ v = 4)
      ∧ board_sum nb = board_sum (board playing) + v
      ∧ board_count nb = S (board_count [[4; 0; 0; 0]; [0; 0; 0; 0]; [0; 0; 0; 0];
                                         [0; 0; 0; 0]]).
Proof.
  assert (Hscore : 0 ≤ score playing) by discriminate.
  assert (Hroom : score playing + board_sum (board playing) ≤ MAX_SAFE_INTEGER)
    by discriminate.
  split; [exact half_lower|]. split; [exact half_upper|].
  split; [exact left_in_Directions|]. split; [exact two_twos_is_board|].
  split; [exact two_twos_safe|]. split; [exact Hscore|]. split; [exact Hroom|].
  split; [exact two_twos_changes|].
  split; [reflexivity|]. split; [reflexivity|].
  exact (handleMove_accepted (1 # 2) (1 # 2) playing "left" _ half_lower half_upper
           left_in_Directions two_twos_is_board two_twos_safe Hscore Hroom
           eq_refl eq_refl two_twos_changes).
Defined.

(** X8: the seeding at mount.  For draws in range, the effect installs a
    board of the game with exactly two tiles, each 2 or 4, and leaves the
    score and [gameOver] as they are; the seeded state is a state of the
    game on which a move is possible. *)
Theorem seedBoard_two_tiles (u1 u2 u3 u4 : Q) :
  (0 <= u1)%Q → (u1 < 1)%Q → (0 <= u3)%Q → (u3 < 1)%Q →
  ∃ nb v w, seedBoard u1 u2 u3 u4 initialState = (mkState nb 0 false, Ok tt)
            ∧ valid_state (mkState nb 0 false)
            ∧ board_count nb = 2%nat
            ∧ (v = 2 ∨ v = 4) ∧ (w = 2 ∨ w = 4) ∧ board_sum nb = v + w
            ∧ hasMoves nb = Ok true.
Proof.
  intros Hlo1 Hhi1 Hlo3 Hhi3. unfold seedBoard, initialState. cbn [board score gameOver].
  assert (Hempty : is_board createEmptyBoard) by (split; [reflexivity | repeat constructor]).
  assert (Hzeros : all_cells (fun v => is_tile v = true) createEmptyBoard)
    by repeat constructor.
  destruct (spawn_board u1 u2 Hlo1 Hhi1 createEmptyBoard)
    as (nb1 & v & Hspawn1 & Hv & Hsum1 & Hcount1 & Hshape1 & Hcells1); [discriminate|].
  rewrite Hspawn1.
  destruct (spawn_board u3 u4 Hlo3 Hhi3 nb1)
    as (nb2 & w & Hspawn2 & Hw & Hsum2 & Hcount2 & Hshape2 & Hcells2).
  { apply not_full_has_empty; [by apply Hshape1|]. rewrite Hcount1.
    change (board_count createEmptyBoard) with 0%nat. lia. }
  rewrite Hspawn2. exists nb2, v, w. split; [reflexivity|].
  pose proof (Hshape2 (Hshape1 Hempty)) as Hb2.
  split.
  { split; [exact Hb2|]. split; [|discriminate]. cbn [board].
    apply Hcells2; [reflexivity | reflexivity|]. by apply Hcells1. }
  split. { rewrite Hcount2, Hcount1. reflexivity. }
  split; [exact Hv|]. split; [exact Hw|].
  split. { rewrite Hsum2, Hsum1. change (board_sum createEmptyBoard) with 0. lia. }
  rewrite (hasMoves_refines nb2 Hb2). f_equal.
  apply (spec_hasMoves_true nb2 Hb2).
  destruct (emptyCells nb2) as [|[r c] cells] eqn:Hlist.
  - exfalso. apply (not_full_has_empty nb2 Hb2); [|exact Hlist].
    rewrite Hcount2, Hcount1. change (board_count createEmptyBoard) with 0%nat. lia.
  - exists r, c, 0. split; [|by left]. apply elem_of_emptyCells. rewrite Hlist.
    apply list_elem_of_here.
Qed.

(** The four draws equal to one half. *)
Lemma seedBoard_two_tiles_witness :
  (0 <= 1 # 2)%Q ∧ (1 # 2 < 1)%Q
  ∧ ∃ nb v w,
      seedBoard (1 # 2) (1 # 2) (1 # 2) (1 # 2) initialState
      = (mkState nb 0 false, Ok tt)
      ∧ valid_state (mkState nb 0 false)
      ∧ board_count nb = 2%nat
      ∧ (v = 2 ∨ v = 4) ∧ (w = 2 ∨ w = 4) ∧ board_sum nb = v + w
      ∧ hasMoves nb = Ok true.
Proof.
  split; [exact half_lower|]. split; [exact half_upper|].
  exact (seedBoard_two_tiles (1 # 2) (1 # 2) (1 # 2) (1 # 2)
           half_lower half_upper half_lower half_upper).
Defined.

(** X9: [transpose] on a board of any shape.  It raises a [TypeError]
    exactly on the empty board.  When no row is shorter than the first
    row, it returns a board with one row per cell of the first row, each
    as long as the board has rows, whose cell [(r, c)] is the cell
    [(c, r)] of the argument.  When some row is shorter than the first
    row, [undefined] enters the result. *)
Theorem transpose_outcomes (b : Board) :
  (∀ e, transpose b = Throw e ↔ b = [])
  ∧ ∀ row0, b !! 0%nat = Some row0 →
      (Forall (fun row : Row => (length row0 ≤ length row)%nat) b →
       ∃ t, transpose b = Ok t ∧ length t = length row0
            ∧ Forall (fun col : Row => length col = length b) t
            ∧ ∀ r c, (r < length row0)%nat → (c < length b)%nat →
                tile t r c = tile b c r)
      ∧ (¬ Forall (fun row : Row => (length row0 ≤ length row)%nat) b →
         transpose b = NonInteger).
Proof.
  split; [intros e; apply transpose_Throw|]. intros row0 H0. split.
  - intros Hrows. destruct (transpose_rectangular b row0 H0 Hrows) as [t Ht].
    exists t. split; [exact Ht|].
    destruct (transpose_Ok_cells b t Ht) as (row0' & H0' & Hlen & Hcols & Hcells).
    rewrite H0 in H0'. injection H0' as <-.
    split; [exact Hlen|]. split; [exact Hcols|].
    intros r c Hr Hc. exact (proj1 (Hcells r c Hr Hc)).
  - intros Hragged. destruct (transpose b) as [t|e|] eqn:Ht; [| |reflexivity].
    + destruct Hragged. exact (transpose_Ok_rows b t row0 Ht H0).
    + apply transpose_Throw in Ht. subst b. discriminate.
Qed.

(** A board of two rows of three cells. *)
Lemma transpose_outcomes_witness :
  [[1; 2; 3]; [4; 5; 6]] !! 0%nat = Some [1; 2; 3]
  ∧ Forall (fun row : Row => (length [1; 2; 3] ≤ length row)%nat)
      [[1; 2; 3]; [4; 5; 6]]
  ∧ ∃ t, transpose [[1; 2; 3]; [4; 5; 6]] = Ok t ∧ length t = length [1; 2; 3]
         ∧ Forall (fun col : Row => length col = length [[1; 2; 3]; [4; 5; 6]]) t
         ∧ ∀ r c, (r < length [1; 2; 3])%nat →
             (c < length [[1; 2; 3]; [4; 5; 6]])%nat →
             tile t r c = tile [[1; 2; 3]; [4; 5; 6]] c r.
Proof.
  assert (Hrows : Forall (fun row : Row => (length [1; 2; 3] ≤ length row)%nat)
                    [[1; 2; 3]; [4; 5; 6]]) by (repeat constructor).
  split; [reflexivity|]. split; [exact Hrows|].
  exact (proj1 (proj2 (transpose_outcomes [[1; 2; 3]; [4; 5; 6]]) [1; 2; 3] eq_refl)
           Hrows).
Defined.

(** ** The scan of [hasMoves] on boards of any shape *)

Section Scan.

Lemma existsM_false (body : nat → result bool) (idxs : list nat) :
  existsM body idxs = Ok false → Forall (fun i => body i = Ok false) idxs.
Proof.
  induction idxs as [|i idxs IH]; cbn [existsM]; [constructor|].
  destruct (body i) as [[|]| |] eqn:Hi; cbn [mbind result_bind]; try discriminate.
  intros Hrest. constructor; [exact Hi | by apply IH].
Qed.

Lemma existsM_integer (body : nat → result bool) (idxs : list nat) :
  (∀ i, body i ≠ NonInteger) → existsM body idxs ≠ NonInteger.
Proof.
  intros Hbody. induction idxs as [|i idxs IH]; cbn [existsM]; [discriminate|].
  destruct (body i) as [[|]| |] eqn:Hi; cbn [mbind result_bind];
    [discriminate | exact IH | discriminate | by destruct (Hbody i)].
Qed.

Lemma hasMoves_at_integer (b : Board) (r c : nat) : hasMoves_at b r c ≠ NonInteger.
Proof.
  unfold hasMoves_at. destruct (b !! r) as [row|]; [|discriminate].
  destruct (strict_eq (row !! c) (Some 0)); [discriminate|].
  destruct ((c <? BOARD_SIZE - 1)%nat && _); [discriminate|].
  destruct (r <? BOARD_SIZE - 1)%nat; [|discriminate].
  destruct (b !! S r); discriminate.
Qed.

(** [hasMoves] compares [undefined] reads but stores none. *)
Lemma hasMoves_integer (b : Board) : hasMoves b ≠ NonInteger.
Proof.
  unfold hasMoves. apply existsM_integer. intros r. apply existsM_integer.
  intros c. apply hasMoves_at_integer.
Qed.

Lemma hasMoves_false_rows (b : Board) :
  hasMoves b = Ok false → (BOARD_SIZE ≤ length b)%nat.
Proof.
  unfold hasMoves. intros Hscan. apply existsM_false in Hscan.
  pose proof (proj1 (Forall_forall _ _) Hscan 3%nat) as Hlast.
  cbn beta in Hlast. specialize (Hlast ltac:(apply elem_of_seq; unfold BOARD_SIZE; lia)).
  apply existsM_false in Hlast.
  pose proof (proj1 (Forall_forall _ _) Hlast 0%nat) as Hcell.
  cbn beta in Hcell. specialize (Hcell ltac:(apply elem_of_seq; unfold BOARD_SIZE; lia)).
  unfold hasMoves_at in Hcell.
  destruct (b !! 3%nat) as [row|] eqn:Hrow; [|discriminate].
  apply lookup_lt_Some in Hrow. unfold BOARD_SIZE. lia.
Qed.

End Scan.

(** X10: on a board with fewer than four rows [hasMoves] never answers
    [false]: it returns [true] or raises a [TypeError] for the missing
    row. *)
Theorem hasMoves_short_board (b : Board) :
  (length b < BOARD_SIZE)%nat →
  hasMoves b = Ok true ∨ hasMoves b = Throw TypeError.
Proof.
  intros Hshort. destruct (hasMoves b) as [[|]|[]|] eqn:Hscan; [by left | | by right |].
  - apply hasMoves_false_rows in Hscan. lia.
  - by destruct (hasMoves_integer b).
Qed.

(** A board of one full row. *)
Lemma hasMoves_short_board_witness :
  (length [[2; 4; 8; 16]] < BOARD_SIZE)%nat
  ∧ (hasMoves [[2; 4; 8; 16]] = Ok true ∨ hasMoves [[2; 4; 8; 16]] = Throw TypeError).
Proof.
  assert (Hshort : (length [[2; 4; 8; 16]] < BOARD_SIZE)%nat)
    by (unfold BOARD_SIZE; simpl; lia).
  split; [exact Hshort|]. exact (hasMoves_short_board [[2; 4; 8; 16]] Hshort).
Defined.

(** ** A tile merges at most once in a move *)

Section PairUp.

Lemma filter_nonzero_Forall (row : Row) :
  Forall (fun v => v ≠ 0) (List.filter nonzero row).
Proof.
  apply Forall_forall. intros v Hv. apply list_elem_of_In, filter_In in Hv as [_ Hv].
  unfold nonzero in Hv. by apply negb_true_iff, Z.eqb_neq in Hv.
Qed.

(** Splits the goal on the comparisons of the run, closing the cases that
    contradict the facts at hand. *)
Ltac split_tests :=
  repeat match goal with
         | |- context [?x =? ?y] =>
             destruct (Z.eqb_spec x y); try lia; cbv - [Z.eqb Z.mul Z.add]
         end.

(** The reducer on at most four tiles, padded with zeros, is the rule of
    the game. *)
Lemma merge_tiles (tiles : list Z) :
  Forall (fun v => v ≠ 0) tiles → (length tiles ≤ BOARD_SIZE)%nat →
  merge (tiles ++ replicate (BOARD_SIZE - length tiles) 0)
  = Ok (mkMerge ((pair_up tiles).1
                 ++ replicate (BOARD_SIZE - length (pair_up tiles).1) 0)
          (pair_up tiles).2).
Proof.
  intros Hnz Hlen.
  destruct tiles as [|a [|b [|c [|d [|e tiles]]]]];
    [| | | | |simpl in Hlen; unfold BOARD_SIZE in Hlen; lia];
    repeat (apply Forall_cons in Hnz as [? Hnz]); clear Hnz Hlen.
  - reflexivity.
  - cbv - [Z.eqb Z.mul Z.add]. split_tests. reflexivity.
  - cbv - [Z.eqb Z.mul Z.add]. split_tests; f_equal; f_equal; lia.
  - cbv - [Z.eqb Z.mul Z.add]. split_tests; f_equal; f_equal; lia.
  - cbv - [Z.eqb Z.mul Z.add]. split_tests; f_equal; f_equal; lia.
Qed.

Lemma compress_tiles (row : Row) :
  compress row
  = List.filter nonzero row ++ replicate (BOARD_SIZE - length (List.filter nonzero row)) 0.
Proof. reflexivity. Qed.

End PairUp.

(** X11: each tile merges at most once.  On a row with at most four
    non-zero cells, none negative and with a sum that is a safe integer,
    [merge] after [compress] returns exactly what the rule of the game
    gives on the tiles of the row: equal neighbours are paired from the
    left, each pair becomes one tile of double value that is not merged
    again, and the score is the sum of the new tiles.  The new row is
    padded with zeros, keeps the sum of the row, and its score is at most
    that sum. *)
Theorem reduce_pairs_up (row : Row) :
  (row_count row ≤ BOARD_SIZE)%nat → Forall (fun v => 0 ≤ v) row →
  row_sum row ≤ MAX_SAFE_INTEGER →
  ∃ m, merge (compress row) = Ok m
       ∧ mergedRow m
         = (pair_up (List.filter nonzero row)).1
           ++ replicate (BOARD_SIZE - length (pair_up (List.filter nonzero row)).1) 0
       ∧ rowDelta m = (pair_up (List.filter nonzero row)).2
       ∧ row_sum (mergedRow m) = row_sum row
       ∧ Forall (fun v => 0 ≤ v ≤ MAX_SAFE_INTEGER) (mergedRow m)
       ∧ 0 ≤ rowDelta m ≤ MAX_SAFE_INTEGER.
Proof.
  intros Hcount Hrow Hmax.
  pose proof (merge_tiles _ (filter_nonzero_Forall row) Hcount) as Hm.
  rewrite <- compress_tiles in Hm.
  eexists. split; [exact Hm|]. cbn [mergedRow rowDelta].
  split; [reflexivity|]. split; [reflexivity|].
  destruct (reduce_ok row) as (m' & Hm' & _ & Hsum).
  pose proof Hm as Hm2. rewrite Hm' in Hm2. injection Hm2 as ->. cbn [mergedRow] in Hsum.
  pose proof (compress_Forall (fun v => 0 ≤ v) (Z.le_refl 0) _ Hrow) as Hcompressed.
  pose proof (merge_Forall (fun v => 0 ≤ v) (Z.le_refl 0) nonneg_double _ _ Hm Hcompressed)
    as Hout.
  pose proof (merge_delta _ _ Hm Hcompressed) as Hd0.
  pose proof (merge_budget _ _ Hm Hcompressed) as Hd1.
  rewrite row_sum_compress in Hd1. cbn [mergedRow rowDelta] in Hout, Hd0, Hd1.
  split; [exact Hsum|]. split; [|lia].
  apply Forall_lookup. intros i v Hv.
  pose proof (proj1 (Forall_lookup _ _) Hout i v Hv) as Hv0. cbn beta in Hv0.
  pose proof (row_sum_cell _ i v Hout Hv). lia.
Qed.

(** The row [2,2,4,0] gives [4,4,0,0] with score 4, not [8,0,0,0]. *)
Lemma reduce_pairs_up_witness :
  (row_count [2; 2; 4; 0]%Z ≤ BOARD_SIZE)%nat ∧ Forall (fun v => 0 ≤ v) [2; 2; 4; 0]
  ∧ row_sum [2; 2; 4; 0] ≤ MAX_SAFE_INTEGER
  ∧ ∃ m, merge (compress [2; 2; 4; 0]) = Ok m
         ∧ mergedRow m = [4; 4; 0; 0] ∧ rowDelta m = 4
         ∧ row_sum (mergedRow m) = 8
         ∧ Forall (fun v => 0 ≤ v ≤ MAX_SAFE_INTEGER) (mergedRow m)
         ∧ 0 ≤ rowDelta m ≤ MAX_SAFE_INTEGER.
Proof.
  assert (Hcount : (row_count [2; 2; 4; 0]%Z ≤ BOARD_SIZE)%nat)
    by (unfold row_count, BOARD_SIZE; simpl; lia).
  assert (Hrow : Forall (fun v => 0 ≤ v) [2; 2; 4; 0]) by (repeat constructor; discriminate).
  assert (Hmax : row_sum [2; 2; 4; 0] ≤ MAX_SAFE_INTEGER) by discriminate.
  split; [exact Hcount|]. split; [exact Hrow|]. split; [exact Hmax|].
  exact (reduce_pairs_up [2; 2; 4; 0] Hcount Hrow Hmax).
Defined.

(** X12: the down move is the up move seen upside down.  On a board of
    the game, moving down gives the same score as moving the board with
    its rows in reverse order up, and the new board is that result with
    its rows in reverse order again. *)
Theorem moveDown_mirror (b : Board) :
  is_board b →
  moveDown b = (m ← moveUp (rev b); Ok (mkMove (rev (newBoard m)) (scoreDelta m))).
Proof.
  intros Hb. name_cells Hb. unfold moveDown, moveUp, moveRight.
  cbn [rev app]. rewrite !transpose4. cbn [mbind result_bind reverse List.map rev app].
  match goal with
  | |- context [moveLeft ?x] =>
      destruct (moveLeft_board x) as ([nb sd] & Hm & Hbm & _);
        [by apply is_board_intro | rewrite Hm]
  end.
  cbn [mbind result_bind newBoard scoreDelta] in *. name_cells Hbm.
  cbn [List.map rev app]. rewrite !transpose4. reflexivity.
Qed.

(** The board [two_twos]. *)
Lemma moveDown_mirror_witness :
  is_board two_twos
  ∧ moveDown two_twos
    = (m ← moveUp (rev two_twos); Ok (mkMove (rev (newBoard m)) (scoreDelta m))).
Proof.
  split; [exact two_twos_is_board|]. exact (moveDown_mirror two_twos two_twos_is_board).
Defined.

Lemma right_in_Directions : "right" ∈ Directions.
Proof. unfold Directions. do 3 apply list_elem_of_further. apply list_elem_of_here. Defined.

Lemma down_in_Directions : "down" ∈ Directions.
Proof. unfold Directions. apply list_elem_of_further. apply list_elem_of_here. Defined.

(** ** Boards that no move changes *)

Section Stuck.

Lemma forM_app {S : Type} (body : nat → S → result S) (xs ys : list nat) (s : S) :
  forM body (xs ++ ys) s = (s' ← forM body xs s; forM body ys s').
Proof.
  revert s. induction xs as [|x xs IH]; intros s; [reflexivity|].
  cbn [forM app]. destruct (body x s); cbn [mbind result_bind]; [apply IH | done | done].
Qed.

(** At two equal non-zero neighbours the iteration of the loop of [merge]
    merges. *)
Lemma merge_step_merges (i : nat) (row row' : Row) (d d' a : Z) :
  row !! i = Some a → row !! S i = Some a → a ≠ 0 →
  merge_step i (row, d) = Ok (row', d') → S (row_count row') = row_count row.
Proof.
  intros Ha Hnext Hnz Hstep.
  destruct (merge_step_count _ _ _ _ _ Hstep) as [[-> ->] | Hless]; [|exact Hless].
  exfalso. revert Hstep. unfold merge_step. rewrite Ha, Hnext. cbn [strict_eq].
  rewrite Z.eqb_refl. apply Z.eqb_neq in Hnz. rewrite Hnz. cbn [negb andb].
  intros [= _ Hd]. apply Z.eqb_neq in Hnz. lia.
Qed.

(** A row with two equal non-zero neighbours among its first four cells
    loses a tile in [merge]. *)
Lemma merge_pair_merges (row : Row) (i : nat) (a : Z) (m : MergeResult) :
  row !! i = Some a → row !! S i = Some a → a ≠ 0 → (i < BOARD_SIZE - 1)%nat →
  merge row = Ok m → (row_count (mergedRow m) < row_count row)%nat.
Proof.
  intros Ha Hnext Hnz Hi. unfold merge.
  replace (seq 0 (BOARD_SIZE - 1))
    with (seq 0 i ++ i :: seq (S i) (BOARD_SIZE - 1 - S i)).
  2:{ change (i :: seq (S i) (BOARD_SIZE - 1 - S i)) with (seq i (S (BOARD_SIZE - 1 - S i))).
      rewrite <- (Nat.add_0_l i) at 2. rewrite <- seq_app. f_equal. lia. }
  rewrite forM_app.
  destruct (forM merge_step (seq 0 i) (row, 0)) as [[r1 d1]| |] eqn:H1; try discriminate.
  cbn [mbind result_bind forM].
  destruct (merge_step i (r1, d1)) as [[r2 d2]| |] eqn:H2; try discriminate.
  cbn [mbind result_bind].
  destruct (forM merge_step _ (r2, d2)) as [[r3 d3]| |] eqn:H3; try discriminate.
  cbn [mbind result_bind]. intros [= <-]. cbn [mergedRow]. rewrite row_count_compress.
  destruct (forM_merge_step_count _ _ _ _ _ H1) as [Hle1 Heq1].
  destruct (forM_merge_step_count _ _ _ _ _ H3) as [Hle3 _].
  destruct (merge_step_count _ _ _ _ _ H2) as [[-> ->] | Hless]; [|lia].
  destruct (decide (row_count r1 = row_count row)) as [Hsame | Hdiff]; [|lia].
  destruct (Heq1 Hsame) as [-> ->].
  pose proof (merge_step_merges _ _ _ _ _ _ Ha Hnext Hnz H2). lia.
Qed.

Lemma moveLeft_rows_Forall2 (rows moved : Board) (d d' : Z) :
  moveLeft_rows rows d = Ok (moved, d') →
  Forall2 (fun row out => ∃ m, merge (compress row) = Ok m ∧ out = mergedRow m)
    rows moved.
Proof.
  revert moved d. induction rows as [|row rows IH]; intros moved d; cbn [moveLeft_rows].
  - intros [= <- <-]. constructor.
  - destruct (merge (compress row)) as [m| |] eqn:Hm; try discriminate.
    cbn [mbind result_bind].
    destruct (moveLeft_rows rows (d + rowDelta m)) as [[moved' d'']| |] eqn:Hrest;
      try discriminate.
    cbn [mbind result_bind]. intros [= <- <-].
    constructor; [by exists m | exact (IH _ _ Hrest)].
Qed.

(** In a board without zero cell that the left move leaves alone, no cell
    equals its right neighbour. *)
Lemma left_fixed_no_pair (x : Board) (m : MoveResult) :
  is_board x → (∀ r c, tile x r c ≠ Some 0) →
  moveLeft x = Ok m → newBoard m = x →
  ∀ r c v, tile x r c = Some v → tile x r (S c) ≠ Some v.
Proof.
  intros Hx Hfull Hm Hsame r c v Hv Hnext.
  unfold moveLeft in Hm.
  destruct (moveLeft_rows x 0) as [[moved d]| |] eqn:Hrows; try discriminate.
  cbn [mbind result_bind] in Hm. injection Hm as <-. cbn [newBoard] in Hsame. subst moved.
  apply moveLeft_rows_Forall2 in Hrows.
  unfold tile in Hv, Hnext. destruct (x !! r) as [row|] eqn:Hrow; [|discriminate].
  destruct (Forall2_lookup_l _ _ _ _ _ Hrows Hrow) as (out & Hout & mr & Hmr & ->).
  rewrite Hrow in Hout. injection Hout as Hfixed.
  assert (Hnz : Forall (fun w => w ≠ 0) row)
    by exact (proj1 (Forall_lookup _ _) (no_zero_tiles x Hfull) r row Hrow).
  assert (Hlen : length row = BOARD_SIZE)
    by exact (proj1 (Forall_lookup _ _) (proj2 Hx) r row Hrow).
  rewrite compress_full in Hmr by (first [exact Hnz | lia]).
  assert (Hv0 : v ≠ 0) by exact (proj1 (Forall_lookup _ _) Hnz c v Hv).
  pose proof (lookup_lt_Some _ _ _ Hnext) as Hc.
  pose proof (merge_pair_merges row c v mr Hv Hnext Hv0 ltac:(unfold BOARD_SIZE in *; lia) Hmr).
  rewrite <- Hfixed in *. lia.
Qed.

Lemma tile_is_Some (b : Board) (r c : nat) :
  is_board b → (r < BOARD_SIZE)%nat → (c < BOARD_SIZE)%nat → is_Some (tile b r c).
Proof.
  intros [Hlen Hrows] Hr Hc. unfold tile.
  destruct (lookup_lt_is_Some_2 b r) as [row Hrow]; [lia|]. rewrite Hrow.
  apply lookup_lt_is_Some_2.
  rewrite (proj1 (Forall_lookup _ _) Hrows r row Hrow). exact Hc.
Qed.

(** A board of the game packed against its four edges and holding a tile
    has no empty cell. *)
Lemma packed_all_full (b : Board) :
  is_board b → packed_left b → packed_right b → packed_up b → packed_down b →
  (∃ r c v, tile b r c = Some v ∧ v ≠ 0) → ∀ r c, tile b r c ≠ Some 0.
Proof.
  intros Hb Hl Hr Hu Hd (r0 & c0 & v0 & Hv0 & Hnz) r c Hzero.
  destruct (tile_bounds b r0 c0 v0 Hb Hv0) as [Hr0 Hc0].
  destruct (tile_bounds b r c 0 Hb Hzero) as [Hrr Hcc].
  destruct (tile_is_Some b r c0 Hb Hrr Hc0) as [w Hw].
  assert (w = 0) as ->.
  { destruct (lt_eq_lt_dec c c0) as [[Hlt | ->] | Hgt].
    - exact (Hl r c c0 w Hlt Hzero Hw).
    - congruence.
    - exact (Hr r c0 c w Hgt Hzero Hw). }
  apply Hnz. destruct (lt_eq_lt_dec r r0) as [[Hlt | ->] | Hgt].
  - exact (Hu r r0 c0 v0 Hlt Hw Hv0).
  - congruence.
  - exact (Hd r0 r c0 v0 Hgt Hw Hv0).
Qed.

(** A board of the game that the left, right, up and down moves all leave
    alone either holds no tile or allows no move. *)
Lemma stuck_board (b : Board) :
  is_board b →
  (∀ d m, d ∈ Directions → resolve d b = Ok m → newBoard m = b) →
  (∃ r c v, tile b r c = Some v ∧ v ≠ 0) →
  spec_hasMoves b = false.
Proof.
  intros Hb Hstuck Htile.
  destruct (moveLeft_board b Hb) as (ml & Hml & _ & _ & _ & Hpl).
  destruct (moveRight_board b Hb) as (mr & Hmr & _ & _ & Hpr).
  destruct (moveUp_board b Hb) as (mu & Hmu & _ & _ & Hpu).
  destruct (moveDown_board b Hb) as (md & Hmd & _ & _ & Hpd).
  pose proof left_in_Directions as Hleft. pose proof right_in_Directions as Hright.
  pose proof up_in_Directions as Hup. pose proof down_in_Directions as Hdown.
  rewrite (Hstuck "left" ml Hleft Hml) in Hpl.
  rewrite (Hstuck "right" mr Hright Hmr) in Hpr.
  rewrite (Hstuck "down" md Hdown Hmd) in Hpd.
  pose proof (Hstuck "up" mu Hup Hmu) as Hfixu. rewrite Hfixu in Hpu.
  pose proof (packed_all_full b Hb Hpl Hpr Hpu Hpd Htile) as Hfull.
  apply not_true_iff_false. intros Hmoves.
  apply (spec_hasMoves_true b Hb) in Hmoves as (r & c & v & Hv & [-> | [Hpair | Hpair]]).
  - exact (Hfull r c Hv).
  - exact (left_fixed_no_pair b ml Hb Hfull Hml (Hstuck "left" ml Hleft Hml) r c v Hv Hpair).
  - destruct (transpose_board b Hb) as (t & Ht & Hbt & Hback & _ & Hswap).
    revert Hmu. unfold moveUp. rewrite Ht. cbn [mbind result_bind].
    destruct (moveLeft t) as [m'| |] eqn:Hm'; try discriminate. cbn [mbind result_bind].
    destruct (transpose (newBoard m')) as [t'| |] eqn:Ht'; try discriminate.
    cbn [mbind result_bind]. intros [= <-]. cbn [newBoard] in Hfixu. subst t'.
    destruct (transpose_board _ (moveLeft_is_board t m' Hbt Hm'))
      as (t2 & Ht2 & _ & Hback2 & _).
    rewrite Ht' in Ht2. injection Ht2 as <-. rewrite Ht in Hback2. injection Hback2 as Hfixed.
    apply (left_fixed_no_pair t m' Hbt) with (r := c) (c := r) (v := v).
    + intros i j. rewrite Hswap. apply Hfull.
    + exact Hm'.
    + by symmetry.
    + by rewrite Hswap.
    + by rewrite Hswap.
Qed.

End Stuck.

Lemma two_twos_has_tile : ∃ r c v, tile two_twos r c = Some v ∧ v ≠ 0.
Proof. exists 0%nat, 0%nat, 2. split; [reflexivity | discriminate]. Defined.

(** X13: [hasMoves] does not promise a move that is not there.  On a
    board of the game that holds a tile, when [hasMoves] returns [true]
    one of the four moves changes the board. *)
Theorem hasMoves_some_move_accepted (b : Board) :
  is_board b → hasMoves b = Ok true → (∃ r c v, tile b r c = Some v ∧ v ≠ 0) →
  ∃ d m, d ∈ Directions ∧ resolve d b = Ok m ∧ newBoard m ≠ b.
Proof.
  intros Hb Hmoves Htile.
  assert (Hdec : ∀ d, d ∈ Directions →
            (∃ m, resolve d b = Ok m ∧ newBoard m ≠ b)
            ∨ (∀ m, resolve d b = Ok m → newBoard m = b)).
  { intros d Hd. destruct (resolve_board d b Hd Hb) as (m & Hm & _).
    destruct (decide (newBoard m = b)) as [Hsame | Hchanged].
    - right. intros m' Hm'. congruence.
    - left. by exists m. }
  pose proof left_in_Directions as Hleft. pose proof right_in_Directions as Hright.
  pose proof up_in_Directions as Hup. pose proof down_in_Directions as Hdown.
  destruct (Hdec "left" Hleft) as [(m & Hm & Hch) | Hl]; [by exists "left", m|].
  destruct (Hdec "right" Hright) as [(m & Hm & Hch) | Hr]; [by exists "right", m|].
  destruct (Hdec "up" Hup) as [(m & Hm & Hch) | Hu]; [by exists "up", m|].
  destruct (Hdec "down" Hdown) as [(m & Hm & Hch) | Hd]; [by exists "down", m|].
  exfalso. rewrite (hasMoves_refines b Hb) in Hmoves. injection Hmoves as Hmoves.
  rewrite stuck_board in Hmoves; [discriminate | exact Hb | | exact Htile].
  intros d m Hin. destruct (Directions_inv d Hin) as [-> | [-> | [-> | ->]]]; auto.
Qed.

(** The board [two_twos]. *)
Lemma hasMoves_some_move_accepted_witness :
  is_board two_twos ∧ hasMoves two_twos = Ok true
  ∧ (∃ r c v, tile two_twos r c = Some v ∧ v ≠ 0)
  ∧ ∃ d m, d ∈ Directions ∧ resolve d two_twos = Ok m ∧ newBoard m ≠ two_twos.
Proof.
  split; [exact two_twos_is_board|]. split; [reflexivity|].
  split; [exact two_twos_has_tile|].
  exact (hasMoves_some_move_accepted two_twos two_twos_is_board eq_refl two_twos_has_tile).
Defined.

(** ** The class of a tile *)

Section TileClass.

Lemma color_table_NoDup : NoDup (color_table.*1).
Proof. apply (bool_decide_unpack _). by vm_compute. Qed.

Lemma colors_lookup (v : Z) (s : string) :
  colors !! v = Some s ↔ (v, s) ∈ color_table.
Proof. unfold colors. symmetry. apply elem_of_list_to_map. exact color_table_NoDup. Qed.

Lemma colors_beyond (v : Z) : 2048 < v → colors !! v = None.
Proof.
  intros Hv. unfold colors. apply not_elem_of_list_to_map.
  unfold color_table. cbn [fmap list_fmap fst]. rewrite !not_elem_of_cons.
  repeat split; try lia. apply not_elem_of_nil.
Qed.

(** The tile values up to 2048 are the keys of [colors]. *)
Lemma tile_in_table (v : Z) :
  is_tile v = true → v ≤ 2048 → v ∈ color_table.*1.
Proof.
  intros Hv Hle. apply is_tile_spec in Hv as [-> | [k ->]].
  { by apply (bool_decide_unpack _); vm_compute. }
  assert (Hk : (k ≤ 10)%nat).
  { destruct (le_lt_dec k 10) as [|Hbig]; [assumption | exfalso].
    assert (2 ^ 12 ≤ 2 ^ Z.of_nat (S k)) by (apply Z.pow_le_mono_r; lia).
    change (2 ^ 12) with 4096 in *. lia. }
  do 11 (destruct k as [|k]; [by apply (bool_decide_unpack _); vm_compute|]). lia.
Qed.

Lemma tileClass_table (v : Z) (s : string) :
  (v, s) ∈ color_table → tileClass v = base +:+ " " +:+ s +:+ " text-white".
Proof. intros Hin. apply colors_lookup in Hin. unfold tileClass. by rewrite Hin. Qed.

Lemma tileClass_beyond (v : Z) :
  2048 < v → tileClass v = base +:+ " " +:+ "bg-indigo-500" +:+ " text-white".
Proof. intros Hv. unfold tileClass. by rewrite (colors_beyond v Hv). Qed.

(** The classes of the table are pairwise different, and different from
    the class of the values outside the table. *)
Lemma table_classes_differ :
  Forall (fun p : Z * string =>
            base +:+ " " +:+ p.2 +:+ " text-white"
            ≠ base +:+ " " +:+ "bg-indigo-500" +:+ " text-white"
            ∧ Forall (fun q : Z * string =>
                        base +:+ " " +:+ p.2 +:+ " text-white"
                        = base +:+ " " +:+ q.2 +:+ " text-white" → p.1 = q.1)
                color_table) color_table.
Proof. apply (bool_decide_unpack _). by vm_compute. Qed.

End TileClass.

(** X14: the class of a tile tells its value up to 2048.  Two tile values
    get the same class from [tileClass] exactly when they are equal or
    both above 2048. *)
Theorem tileClass_tells_value (v w : Z) :
  is_tile v = true → is_tile w = true →
  (tileClass v = tileClass w ↔ v = w ∨ (2048 < v ∧ 2048 < w)).
Proof.
  intros Hv Hw.
  assert (Hcase : ∀ x, is_tile x = true →
            (∃ s, (x, s) ∈ color_table) ∨ 2048 < x).
  { intros x Hx. destruct (Z_le_gt_dec x 2048) as [Hle | Hgt]; [left | right; lia].
    pose proof (tile_in_table x Hx Hle) as Hkey.
    apply list_elem_of_fmap in Hkey as ([y s] & -> & Hin). by exists s. }
  pose proof (proj1 (Forall_forall _ _) table_classes_differ) as Hdiff.
  split.
  - intros Hclass.
    destruct (Hcase v Hv) as [[s Hs] | Hbig]; destruct (Hcase w Hw) as [[s' Hs'] | Hbig'].
    + left. rewrite (tileClass_table v s Hs), (tileClass_table w s' Hs') in Hclass.
      destruct (Hdiff _ Hs) as [_ Hall].
      exact (proj1 (Forall_forall _ _) Hall _ Hs' Hclass).
    + exfalso. rewrite (tileClass_table v s Hs), (tileClass_beyond w Hbig') in Hclass.
      exact (proj1 (Hdiff _ Hs) Hclass).
    + exfalso. rewrite (tileClass_beyond v Hbig), (tileClass_table w s' Hs') in Hclass.
      exact (proj1 (Hdiff _ Hs') (eq_sym Hclass)).
    + right. lia.
  - intros [-> | [Hbig Hbig']]; [reflexivity|].
    by rewrite (tileClass_beyond v Hbig), (tileClass_beyond w Hbig').
Qed.

(** The tiles 4096 and 8192 share their class. *)
Lemma tileClass_tells_value_witness :
  is_tile 4096 = true ∧ is_tile 8192 = true
  ∧ (tileClass 4096 = tileClass 8192 ↔ 4096 = 8192 ∨ (2048 < 4096 ∧ 2048 < 8192)).
Proof.
  split; [reflexivity|]. split; [reflexivity|].
  exact (tileClass_tells_value 4096 8192 eq_refl eq_refl).
Defined.

Section Candidates.

Lemma emptyCells_row_NoDup (r c0 : nat) (row : Row) : NoDup (emptyCells_row r c0 row).
Proof.
  revert c0. induction row as [|v row IH]; intros c0; cbn [emptyCells_row];
    [constructor|].
  apply NoDup_app. split; [|split; [|apply IH]].
  - destruct (v =? 0); [apply NoDup_singleton | constructor].
  - intros p Hp Hrest. apply emptyCells_row_spec in Hrest as (k & -> & _).
    destruct (v =? 0); [|by apply elem_of_nil in Hp].
    apply list_elem_of_singleton in Hp. injection Hp as Hc. lia.
Qed.

Lemma emptyCells_from_NoDup (r0 : nat) (b : Board) : NoDup (emptyCells_from r0 b).
Proof.
  revert r0. induction b as [|row b IH]; intros r0; cbn [emptyCells_from];
    [constructor|].
  apply NoDup_app. split; [apply emptyCells_row_NoDup|]. split; [|apply IH].
  intros p Hp Hrest. apply emptyCells_row_spec in Hp as (k & -> & _).
  apply emptyCells_from_spec in Hrest as (i & c & Heq & _). injection Heq as Hr _. lia.
Qed.

End Candidates.

(** X15: the candidates of the spawner.  On a board of any shape the list
    [emptyCells] holds the position of every zero cell, only positions of
    zero cells, and none of them twice: each empty cell is drawn with the
    same share of [Math.random]. *)
Theorem emptyCells_exact (b : Board) :
  NoDup (emptyCells b) ∧ ∀ r c, (r, c) ∈ emptyCells b ↔ tile b r c = Some 0.
Proof. split; [apply emptyCells_from_NoDup | apply elem_of_emptyCells]. Qed.

(** ** Game over *)

Section GameOver.

Lemma row_count_pos (row : Row) :
  (0 < row_count row)%nat → ∃ c v, row !! c = Some v ∧ v ≠ 0.
Proof.
  induction row as [|v row IH]; [unfold row_count; simpl; lia|].
  rewrite row_count_cons. unfold occupied, nonzero.
  destruct (Z.eqb_spec v 0) as [-> | Hv]; cbn [negb].
  - intros Hpos. destruct IH as (c & w & Hw & Hnz); [lia|]. by exists (S c), w.
  - intros _. by exists 0%nat, v.
Qed.

Lemma board_count_pos (b : Board) :
  (0 < board_count b)%nat → ∃ r c v, tile b r c = Some v ∧ v ≠ 0.
Proof.
  induction b as [|row b IH]; [unfold board_count; simpl; lia|].
  rewrite board_count_cons. intros Hpos.
  destruct (Nat.eq_dec (row_count row) 0%nat) as [Hzero | Hrow].
  - destruct IH as (r & c & v & Hv & Hnz); [lia|]. by exists (S r), c, v.
  - destruct (row_count_pos row) as (c & v & Hv & Hnz); [lia|]. by exists 0%nat, c, v.
Qed.

(** On a board of the game where the scan finds nothing, each of the four
    moves returns the board with score 0. *)
Lemma no_moves_fixed (b : Board) (d : string) :
  is_board b → spec_hasMoves b = false → d ∈ Directions →
  resolve d b = Ok (mkMove b 0).
Proof.
  intros Hb Hno Hd. pose proof (spec_hasMoves_false b Hb Hno) as Hcells. clear Hno.
  name_cells Hb.
  cell_facts Hcells 0%nat 0%nat. cell_facts Hcells 0%nat 1%nat.
  cell_facts Hcells 0%nat 2%nat. cell_facts Hcells 0%nat 3%nat.
  cell_facts Hcells 1%nat 0%nat. cell_facts Hcells 1%nat 1%nat.
  cell_facts Hcells 1%nat 2%nat. cell_facts Hcells 1%nat 3%nat.
  cell_facts Hcells 2%nat 0%nat. cell_facts Hcells 2%nat 1%nat.
  cell_facts Hcells 2%nat 2%nat. cell_facts Hcells 2%nat 3%nat.
  cell_facts Hcells 3%nat 0%nat. cell_facts Hcells 3%nat 1%nat.
  cell_facts Hcells 3%nat 2%nat. cell_facts Hcells 3%nat 3%nat.
  clear Hcells.
  assert (Hfix : ∀ p q r s : Z, p ≠ 0 → q ≠ 0 → r ≠ 0 → s ≠ 0 →
            p ≠ q → q ≠ r → r ≠ s →
            merge (compress [p; q; r; s]) = Ok (mkMerge [p; q; r; s] 0))
    by exact reduce_fixed.
  destruct (Directions_inv d Hd) as [-> | [-> | [-> | ->]]];
    unfold resolve, moveUp, moveDown, moveRight; cbn [String.eqb Ascii.eqb Bool.eqb];
    rewrite ?transpose4; cbn [mbind result_bind reverse List.map rev app];
    (rewrite moveLeft_fixed by (repeat constructor; apply Hfix; congruence));
    cbn [mbind result_bind newBoard scoreDelta reverse List.map rev app];
    rewrite ?transpose4; reflexivity.
Qed.

End GameOver.

(** X16: game over is declared exactly when the player is stuck.  After
    an accepted move, [handleMove] sets [gameOver] if and only if none of
    the four moves changes the new board. *)
Theorem gameOver_iff_stuck (u1 u2 : Q) (st : GameState) (d : string) (m : MoveResult) :
  (0 <= u1)%Q → (u1 < 1)%Q → d ∈ Directions → is_board (board st) →
  gameOver st = false → resolve d (board st) = Ok m → newBoard m ≠ board st →
  ∃ st', handleMove u1 u2 st d = (st', Ok tt)
         ∧ (gameOver st' = true ↔
            ∀ d' m', d' ∈ Directions → resolve d' (board st') = Ok m' →
                     newBoard m' = board st').
Proof.
  intros Hlo Hhi Hd Hb Hplay Hm Hchanged.
  destruct (handleMove_cases u1 u2 st d Hlo Hhi Hd Hb)
    as [[Hover _] | (_ & m' & Hm' & Hcases)]; [congruence|].
  rewrite Hm in Hm'. injection Hm' as <-.
  destruct Hcases as [[Hsame _] | (_ & nb & v & found & _ & Hfound & Hcall & _ & Hbn
                                     & _ & Hcount & _)]; [contradiction|].
  eexists. split; [exact Hcall|]. cbn [gameOver board].
  rewrite (hasMoves_refines nb Hbn) in Hfound. injection Hfound as <-.
  split.
  - intros Hover d' m' Hd' Hm'. apply negb_true_iff in Hover.
    rewrite (no_moves_fixed nb d' Hbn Hover Hd') in Hm'. by injection Hm' as <-.
  - intros Hstuck. apply negb_true_iff. apply (stuck_board nb Hbn Hstuck).
    apply board_count_pos. lia.
Qed.

(** The left move from a state holding [two_twos]. *)
Lemma gameOver_iff_stuck_witness :
  (0 <= 1 # 2)%Q ∧ (1 # 2 < 1)%Q ∧ "left" ∈ Directions ∧ is_board (board playing)
  ∧ [[4; 0; 0; 0]; [0; 0; 0; 0]; [0; 0; 0; 0]; [0; 0; 0; 0]] ≠ board playing
  ∧ gameOver playing = false
  ∧ resolve "left" (board playing)
    = Ok (mkMove [[4; 0; 0; 0]; [0; 0; 0; 0]; [0; 0; 0; 0]; [0; 0; 0; 0]] 4)
  ∧ ∃ st', handleMove (1 # 2) (1 # 2) playing "left" = (st', Ok tt)
           ∧ (gameOver st' = true ↔
              ∀ d' m', d' ∈ Directions → resolve d' (board st') = Ok m' →
                       newBoard m' = board st').
Proof.
  split; [exact half_lower|]. split; [exact half_upper|].
  split; [exact left_in_Directions|]. split; [exact two_twos_is_board|].
  split; [exact two_twos_changes|].
  split; [reflexivity|]. split; [reflexivity|].
  exact (gameOver_iff_stuck (1 # 2) (1 # 2) playing "left" _ half_lower half_upper
           left_in_Directions two_twos_is_board eq_refl eq_refl two_twos_changes).
Defined.


(** ** Sequences of moves *)

Lemma fair_click_intro (u1 u2 : Q) (d : string) :
  (0 <= u1)%Q → (u1 < 1)%Q → d ∈ Directions → fair_click (u1, u2, d).
Proof. intros. by repeat split. Defined.

(** X17: a whole game.  From a state of the game, any sequence of [n]
    clicks on the four buttons, with draws in range, such that the score
    plus [n] times the sum of the cells with 4 added per click is a safe
    integer, leads through calls of [handleMove] that do not raise to a
    state of the game; the score and the sum of the tiles never decrease,
    the sum grows by at most 4 per click and the score by at most the sum
    per click, so both stay safe integers, and from a state with
    [gameOver] set nothing changes any more. *)
Theorem play_keeps_valid_state (clicks : list (Q * Q * string)) (st : GameState) :
  Forall fair_click clicks → valid_state st →
  score st + Z.of_nat (length clicks)
             * (board_sum (board st) + 4 * Z.of_nat (length clicks))
  ≤ MAX_SAFE_INTEGER →
  board_sum (board st) + 4 * Z.of_nat (length clicks) ≤ MAX_SAFE_INTEGER →
  valid_state (play clicks st)
  ∧ score st ≤ score (play clicks st)
  ∧ score (play clicks st)
    ≤ score st + Z.of_nat (length clicks)
                 * (board_sum (board st) + 4 * Z.of_nat (length clicks))
  ∧ score (play clicks st) ≤ MAX_SAFE_INTEGER
  ∧ board_sum (board st) ≤ board_sum (board (play clicks st))
  ∧ board_sum (board (play clicks st))
    ≤ board_sum (board st) + 4 * Z.of_nat (length clicks)
  ∧ board_sum (board (play clicks st)) ≤ MAX_SAFE_INTEGER
  ∧ (gameOver st = true → play clicks st = st).
Proof.
  intros Hclicks. revert st.
  induction Hclicks as [|[[u1 u2] d] clicks (Hlo & Hhi & Hd) _ IH];
    intros st Hvalid Hbudget Hmax.
  - cbn [play length] in *. split; [exact Hvalid|]. repeat (split; [lia|]). done.
  - cbn [play]. cbn [fst snd] in Hlo, Hhi, Hd. cbn [length] in Hmax, Hbudget.
    pose proof (board_sum_nonneg _ (tiles_nonneg _ (proj1 (proj2 Hvalid)))) as Hpos.
    destruct (handleMove_step u1 u2 st d Hlo Hhi Hd Hvalid)
      as (st' & Hcall & Hvalid' & Hscore & Hsum & Hover & _).
    rewrite Hcall. cbn [fst].
    destruct (IH st' Hvalid')
      as (Hvalid'' & Hscore' & Hup & Hsafe & Hsum' & Hup' & Hmax' & Hover');
      [nia | lia |].
    cbn [length]. split; [exact Hvalid''|]. split; [lia|]. split; [nia|].
    split; [exact Hsafe|]. repeat (split; [lia|]).
    intros Hset. rewrite (Hover Hset) in *. exact (Hover' Hset).
Qed.

(** Two clicks from the state holding [two_twos]. *)
Lemma play_keeps_valid_state_witness :
  Forall fair_click [(1 # 2, 1 # 2, "left"); (1 # 2, 1 # 2, "up")]%Q
  ∧ valid_state playing
  ∧ score playing + Z.of_nat 2 * (board_sum (board playing) + 4 * Z.of_nat 2)
    ≤ MAX_SAFE_INTEGER
  ∧ board_sum (board playing) + 4 * Z.of_nat 2 ≤ MAX_SAFE_INTEGER
  ∧ valid_state (play [(1 # 2, 1 # 2, "left"); (1 # 2, 1 # 2, "up")]%Q playing)
  ∧ score (play [(1 # 2, 1 # 2, "left"); (1 # 2, 1 # 2, "up")]%Q playing)
    ≤ MAX_SAFE_INTEGER
  ∧ board_sum (board (play [(1 # 2, 1 # 2, "left"); (1 # 2, 1 # 2, "up")]%Q playing))
    ≤ MAX_SAFE_INTEGER.
Proof.
  assert (Hclicks : Forall fair_click [(1 # 2, 1 # 2, "left"); (1 # 2, 1 # 2, "up")]%Q).
  { constructor; [|constructor; [|constructor]].
    - exact (fair_click_intro _ _ _ half_lower half_upper left_in_Directions).
    - exact (fair_click_intro _ _ _ half_lower half_upper up_in_Directions). }
  assert (Hbudget : score playing
                    + Z.of_nat 2 * (board_sum (board playing) + 4 * Z.of_nat 2)
                    ≤ MAX_SAFE_INTEGER)
    by discriminate.
  assert (Hmax : board_sum (board playing) + 4 * Z.of_nat 2 ≤ MAX_SAFE_INTEGER)
    by discriminate.
  pose proof (play_keeps_valid_state _ playing Hclicks playing_valid Hbudget Hmax)
    as (Hvalid & _ & _ & Hscore & _ & _ & Hsafe & _).
  split; [exact Hclicks|]. split; [exact playing_valid|]. split; [exact Hbudget|].
  split; [exact Hmax|]. split; [exact Hvalid|]. split; [exact Hscore | exact Hsafe].
Defined.
